(** * go-scrub: masking of sensitive fields before serialisation

    A shallow embedding of the [scrub] package and the proofs of its
    specification.  The repository holds several generations of the package:

    - the mutate-and-restore generation, [Scrub(input, fieldsToScrub)], which
      masks the caller's value in place, marshals it and then replays the
      saved originals ([MutateRestore] below);
    - the clone-and-mutate generation,
      [Scrub(cloning, target, fieldsToScrub, dataType)], which round-trips the
      target through the codec into an empty clone and masks the clone, with
      per-field options and partial masking ([CloneMutate] below), and its
      predecessor whose options are a [map[string]string]
      ([CloneMutateSymbolMap] below).

    Go strings are byte sequences; they are modelled by [string], whose
    elements are bytes, so that [len] and slicing count bytes as in Go. *)

From Stdlib Require Import ZArith Lia Bool List Ascii.
From stdpp Require Import base option list strings gmap.

Local Open Scope Z_scope.

(** * The Go runtime, as far as the package uses it *)

(** A call either returns or panics (slice bounds, negative repeat count,
    index out of range). *)
Inductive res (A : Type) : Type :=
| Ok (a : A)
| Panic.
Arguments Ok {A} a.
Arguments Panic {A}.

Definition bind {A B : Type} (m : res A) (k : A → res B) : res B :=
  match m with
  | Ok a => k a
  | Panic => Panic
  end.

Declare Scope res_scope.
Delimit Scope res_scope with res.
Notation "x <- m ;; k" := (bind m (fun x => k))
  (at level 100, m at next level, right associativity) : res_scope.
Local Open Scope res_scope.

Section MapM.
Context {A B : Type} (f : A → res B).

(** [f] on every element in turn, stopping at the first panic. *)
Fixpoint mapM (l : list A) : res (list B) :=
  match l with
  | [] => Ok []
  | x :: l' => y <- f x;; ys <- mapM l';; Ok (y :: ys)
  end.
End MapM.

(** [int] is a 64-bit signed integer; subtraction wraps around. *)
Definition int_min : Z := - 2 ^ 63.
Definition int_max : Z := 2 ^ 63 - 1.
Definition is_int (z : Z) : Prop := int_min <= z <= int_max.
Definition wrap (z : Z) : Z := (z - int_min) mod 2 ^ 64 + int_min.
Definition int_sub (a b : Z) : Z := wrap (a - b).

(** [len(s)] of a string: its number of bytes. *)
Definition len (s : string) : Z := Z.of_nat (String.length s).

(** [s[lo:hi]]: panics unless [0 <= lo <= hi <= len(s)]. *)
Definition slice (s : string) (lo hi : Z) : res string :=
  if (0 <=? lo) && (lo <=? hi) && (hi <=? len s)
  then Ok (String.substring (Z.to_nat lo) (Z.to_nat (hi - lo)) s)
  else Panic.

Fixpoint repeat_string (s : string) (n : nat) : string :=
  match n with
  | O => ""
  | S n' => s +:+ repeat_string s n'
  end.

(** [strings.Repeat(s, count)]: panics on a negative count and when the
    length of the result overflows [int]. *)
Definition Repeat (s : string) (count : Z) : res string :=
  if count <? 0 then Panic
  else if int_max <? len s * count then Panic
  else Ok (repeat_string s (Z.to_nat count)).

(** [strings.ToLower] restricted to ASCII text; the package's functions take
    the library function as a parameter, and this one instantiates it where
    a concrete run is needed. *)
Definition lower_byte (c : ascii) : ascii :=
  let n := nat_of_ascii c in
  if (65 <=? n)%nat && (n <=? 90)%nat then ascii_of_nat (n + 32) else c.

Fixpoint ToLower_ascii (s : string) : string :=
  match s with
  | EmptyString => EmptyString
  | String c s' => String (lower_byte c) (ToLower_ascii s')
  end.

(** * Values seen through [reflect]

    [S] is what a string variable holds: its contents ([string]) when values
    are trees, or its address when the strings live in a store. A struct
    field carries its name and whether it is exported. An interface value and
    a pointer hold [None] when nil. [VOther] stands for every kind the
    package never looks into (numbers, booleans, channels, functions). *)
#[local] Set Warnings "-register-all".
Inductive value (S : Type) : Type :=
| VString (s : S)
| VOther (raw : string)
| VPtr (p : option (value S))
| VIface (d : option (value S))
| VStruct (fields : list (string * bool * value S))
| VSeq (elems : list (value S))
| VMap (entries : list (string * value S)).
Arguments VString {S} s.
Arguments VOther {S} raw.
Arguments VPtr {S} p.
Arguments VIface {S} d.
Arguments VStruct {S} fields.
Arguments VSeq {S} elems.
Arguments VMap {S} entries.

(** [reflect.Value.Kind() == reflect.Ptr] *)
Definition isPtr {S} (v : value S) : bool :=
  match v with VPtr _ => true | _ => false end.

(** The value with every string variable replaced by what [f] gives for it:
    with [f] a store, the contents the value has in that store. *)
Fixpoint vmap {S T : Type} (f : S → T) (v : value S) : value T :=
  match v with
  | VString s => VString (f s)
  | VOther raw => VOther raw
  | VPtr p => VPtr (match p with Some x => Some (vmap f x) | None => None end)
  | VIface d =>
      VIface (match d with Some x => Some (vmap f x) | None => None end)
  | VStruct fields =>
      VStruct (List.map (λ '(name, exported, x), (name, exported, vmap f x))
                 fields)
  | VSeq elems => VSeq (List.map (vmap f) elems)
  | VMap entries => VMap (List.map (λ '(k, x), (k, vmap f x)) entries)
  end.

(** Induction over values, with the induction hypothesis on every value held
    by a pointer, an interface, a field, an element or an entry. *)
Section ValueInd.
Context {S : Type} (P : value S → Prop).
Hypothesis HString : ∀ s, P (VString s).
Hypothesis HOther : ∀ raw, P (VOther raw).
Hypothesis HPtr :
  ∀ p, match p with Some v => P v | None => True end → P (VPtr p).
Hypothesis HIface :
  ∀ d, match d with Some v => P v | None => True end → P (VIface d).
Hypothesis HStruct : ∀ fields, Forall (λ f, P f.2) fields → P (VStruct fields).
Hypothesis HSeq : ∀ elems, Forall P elems → P (VSeq elems).
Hypothesis HMap : ∀ entries, Forall (λ kv, P kv.2) entries → P (VMap entries).

Fixpoint value_ind' (v : value S) : P v :=
  match v with
  | VString s => HString s
  | VOther raw => HOther raw
  | VPtr p =>
      HPtr p (match p return match p with Some v => P v | None => True end
              with Some x => value_ind' x | None => I end)
  | VIface d =>
      HIface d (match d return match d with Some v => P v | None => True end
                with Some x => value_ind' x | None => I end)
  | VStruct fields =>
      HStruct fields
        ((fix go (fs : list (string * bool * value S))
            : Forall (λ f, P f.2) fs :=
            match fs return Forall (λ f, P f.2) fs with
            | [] => @List.Forall_nil _ _
            | f :: fs' =>
                @List.Forall_cons _ _ f fs'
                  (match f return P f.2 with (_, x) => value_ind' x end)
                  (go fs')
            end) fields)
  | VSeq elems =>
      HSeq elems
        ((fix go (es : list (value S)) : Forall P es :=
            match es return Forall P es with
            | [] => @List.Forall_nil _ _
            | e :: es' => @List.Forall_cons _ _ e es' (value_ind' e) (go es')
            end) elems)
  | VMap entries =>
      HMap entries
        ((fix go (es : list (string * value S))
            : Forall (λ kv, P kv.2) es :=
            match es return Forall (λ kv, P kv.2) es with
            | [] => @List.Forall_nil _ _
            | kv :: es' =>
                @List.Forall_cons _ _ kv es'
                  (match kv return P kv.2 with (_, x) => value_ind' x end)
                  (go es')
            end) entries)
  end.
End ValueInd.

(** * Mutate and restore (first generation) *)
Module MutateRestore.

(** String variables live in a store, so that two paths of the target may
    lead to the same variable (two pointers to one string, two slices over
    one backing array). The walker writes string variables only; pointers,
    slice headers and struct layout never change during a call, so the
    target is a [value loc] read against the current store. *)
Definition loc := nat.
Definition store := loc → string.

Definition upd (σ : store) (l : loc) (s : string) : store :=
  λ l', if decide (l' = l) then s else σ l'.

(** What [json.Marshal] and [reflect.DeepEqual] see of the target. *)
Definition snapshot (σ : store) (v : value loc) : value string := vmap σ v.

Definition DefaultToScrub : gmap string bool := {[ "password" := true ]}.

(** The store and the slice behind the [savedValues] pointer. *)
Record state : Type := {
  mem : store;
  savedValues : list string
}.

Section Walk.
(** [strings.ToLower] *)
Variable ToLower : string → string.
Variable fieldsToScrub : gmap string bool.
Variable mask : bool.

(** Lines 178-198 of [scrubInternal]: the value is neither a struct nor an
    array or slice. [CanSet()] holds for every value reached through a
    pointer, which is the only way the walker reaches one. *)
Definition scrubLeaf (targetValue : value loc) (fieldName : string)
    (st : state) : res state :=
  if decide (fieldName = "") then Ok st
  else
    match fieldsToScrub !! ToLower fieldName with
    | Some _ =>
        match targetValue with
        | VString l =>
            if negb (len (mem st l) =? 0) then
              if mask then
                Ok {| mem := upd (mem st) l "********";
                      savedValues := savedValues st ++ [mem st l] |}
              else
                match savedValues st with
                | [] => Panic
                | s0 :: rest =>
                    Ok {| mem := upd (mem st) l s0; savedValues := rest |}
                end
            else Ok st
        | _ => Ok st
        end
    | None => Ok st
    end.

(** Lines 122-198 of [scrubInternal], after the optional dereference;
    [rec] is [scrubInternal] called on the address of a field or element.
    Unexported fields are skipped ([Addr().CanInterface()] is false). *)
Definition scrubInternal_kind
    (rec : value loc → string → state → res state)
    (targetValue : value loc) (fieldName : string) (st : state)
    : res state :=
  match targetValue with
  | VStruct fields =>
      (fix loop (fs : list (string * bool * value loc)) (st : state)
         : res state :=
         match fs with
         | [] => Ok st
         | (name, exported, fValue) :: fs' =>
             st' <- (if exported then rec fValue name st else Ok st);;
             loop fs' st'
         end) fields st
  | VSeq elems =>
      (fix loop (es : list (value loc)) (st : state) : res state :=
         match es with
         | [] => Ok st
         | arrValue :: es' =>
             st' <- rec arrValue fieldName st;;
             loop es' st'
         end) elems st
  | _ => scrubLeaf targetValue fieldName st
  end.

(** [scrubInternal] from [targetType := targetValue.Type()] on, for a
    valid [targetValue := addrValue.Elem()]: a non-nil pointer is
    dereferenced once. *)
Fixpoint scrubInternal_at (targetValue : value loc) (fieldName : string)
    (st : state) {struct targetValue} : res state :=
  match targetValue with
  | VPtr (Some pointee) =>
      scrubInternal_kind scrubInternal_at pointee fieldName st
  | _ => scrubInternal_kind scrubInternal_at targetValue fieldName st
  end.

(** [scrubInternal(target, fieldName, fieldsToScrub, savedValues, mask)]:
    [target] is an interface value, [None] when nil; anything but a non-nil
    pointer returns at once. *)
Definition scrubInternal (target : option (value loc)) (fieldName : string)
    (st : state) : res state :=
  match target with
  | Some (VPtr (Some targetValue)) => scrubInternal_at targetValue fieldName st
  | _ => Ok st
  end.

End Walk.

(** The string variables a walk writes to, in the order it reaches them:
    those met under a field name of the set. The walks of the mask pass and
    of the restore pass are folds of [scrubLoc] over this list. *)
Section Visited.
Variable ToLower : string → string.
Variable fieldsToScrub : gmap string bool.

Definition leaf_locs (targetValue : value loc) (fieldName : string)
    : list loc :=
  if decide (fieldName = "") then []
  else
    match fieldsToScrub !! ToLower fieldName, targetValue with
    | Some _, VString l => [l]
    | _, _ => []
    end.

Definition kind_locs (rec : value loc → string → list loc)
    (targetValue : value loc) (fieldName : string) : list loc :=
  match targetValue with
  | VStruct fields =>
      flat_map (λ '(name, exported, fValue),
                  if exported : bool then rec fValue name else []) fields
  | VSeq elems => flat_map (λ arrValue, rec arrValue fieldName) elems
  | _ => leaf_locs targetValue fieldName
  end.

Fixpoint visited (targetValue : value loc) (fieldName : string)
    {struct targetValue} : list loc :=
  match targetValue with
  | VPtr (Some pointee) => kind_locs visited pointee fieldName
  | _ => kind_locs visited targetValue fieldName
  end.

(** The string variables [Scrub] writes to for a given input. *)
Definition scrubbed (input : option (value loc)) : list loc :=
  match input with
  | Some (VPtr (Some targetValue)) => visited targetValue ""
  | _ => []
  end.
End Visited.

(** What the walk does at one string variable it reaches under a field name
    of the set. *)
Definition scrubLoc (mask : bool) (l : loc) (st : state) : res state :=
  if negb (len (mem st l) =? 0) then
    if mask then
      Ok {| mem := upd (mem st) l "********";
            savedValues := savedValues st ++ [mem st l] |}
    else
      match savedValues st with
      | [] => Panic
      | s0 :: rest => Ok {| mem := upd (mem st) l s0; savedValues := rest |}
      end
  else Ok st.

Fixpoint scrubLocs (mask : bool) (ls : list loc) (st : state) : res state :=
  match ls with
  | [] => Ok st
  | l :: ls' => st' <- scrubLoc mask l st;; scrubLocs mask ls' st'
  end.

(** A pass of the walker over [targetValue] is the fold of [scrubLoc] over
    the string variables it visits. *)
Definition walk_is_fold (ToLower : string → string)
    (fieldsToScrub : gmap string bool) (mask : bool)
    (targetValue : value loc) : Prop :=
  ∀ fieldName st,
    scrubInternal_at ToLower fieldsToScrub mask targetValue fieldName st
    = scrubLocs mask (visited ToLower fieldsToScrub targetValue fieldName) st.

Section Scrub.
Variable ToLower : string → string.
(** [json.Marshal]: [None] is an error, which [Scrub] ignores, converting
    the nil byte slice to the empty string. *)
Variable json_Marshal : option (value string) → option string.

(** [Scrub(input, fieldsToScrub)]: the text returned and the store the call
    leaves behind. A nil map is [None]. *)
Definition Scrub (input : option (value loc))
    (fieldsToScrub : option (gmap string bool)) (σ : store)
    : res (string * store) :=
  match input with
  | None => Ok ("null", σ)
  | Some _ =>
      let fieldsToScrub := default DefaultToScrub fieldsToScrub in
      st1 <- scrubInternal ToLower fieldsToScrub true input ""
               {| mem := σ; savedValues := [] |};;
      let b := json_Marshal (snapshot (mem st1) <$> input) in
      st2 <- scrubInternal ToLower fieldsToScrub false input "" st1;;
      Ok (default "" b, mem st2)
  end.

End Scrub.

End MutateRestore.

(** * Clone and mutate, options as a [map[string]string] (second generation) *)
Module CloneMutateSymbolMap.

Section Masking.
Variable MaskLenVary : bool.
(** [DefaultMaskLen] is a package variable here, 8 unless reassigned. *)
Variable DefaultMaskLen : Z.
Variable ToLower : string → string.
Variable fieldsToScrub : gmap string (gmap string string).

(** The last part of [scrubInternal], reached by a value that is neither a
    struct nor an array or slice. *)
Definition scrubLeaf (targetValue : value string) (fieldName : string)
    : res (value string) :=
  if decide (fieldName = "") then Ok targetValue
  else
    match fieldsToScrub !! ToLower fieldName with
    | Some opts =>
        match targetValue with
        | VString s =>
            if negb (len s =? 0) then
              let symbol :=
                match opts !! "symbol" with
                | Some v => v
                | None => "*"
                end in
              mask <- (if MaskLenVary then Repeat symbol (len s)
                       else Repeat symbol DefaultMaskLen);;
              Ok (VString mask)
            else Ok targetValue
        | _ => Ok targetValue
        end
    | None => Ok targetValue
    end.

(** [scrubInternal] after the optional dereference; [rec] is
    [scrubInternal] called on the address of a field or element. A map is
    none of the kinds looked into and ends in [scrubLeaf]. *)
Definition scrubInternal_kind
    (rec : value string → string → res (value string))
    (targetValue : value string) (fieldName : string)
    : res (value string) :=
  match targetValue with
  | VStruct fields =>
      fields' <-
        (fix loop (fs : list (string * bool * value string))
           : res (list (string * bool * value string)) :=
           match fs with
           | [] => Ok []
           | (name, exported, fValue) :: fs' =>
               f <- (if exported then rec fValue name else Ok fValue);;
               rest <- loop fs';;
               Ok ((name, exported, f) :: rest)
           end) fields;;
      Ok (VStruct fields')
  | VSeq elems =>
      elems' <-
        (fix loop (es : list (value string)) : res (list (value string)) :=
           match es with
           | [] => Ok []
           | arrValue :: es' =>
               a <- rec arrValue fieldName;;
               rest <- loop es';;
               Ok (a :: rest)
           end) elems;;
      Ok (VSeq elems')
  | _ => scrubLeaf targetValue fieldName
  end.

Fixpoint scrubInternal_at (targetValue : value string) (fieldName : string)
    {struct targetValue} : res (value string) :=
  match targetValue with
  | VPtr (Some pointee) =>
      p <- scrubInternal_kind scrubInternal_at pointee fieldName;;
      Ok (VPtr (Some p))
  | _ => scrubInternal_kind scrubInternal_at targetValue fieldName
  end.

Definition scrubInternal (target : option (value string))
    (fieldName : string) : res (option (value string)) :=
  match target with
  | Some (VPtr (Some targetValue)) =>
      v <- scrubInternal_at targetValue fieldName;;
      Ok (Some (VPtr (Some v)))
  | _ => Ok target
  end.

End Masking.

Definition DataType := string.
Definition XMLScrub : DataType := "xml".
Definition JSONScrub : DataType := "json".

(** [map[string]map[string]string]: an inner map may be nil ([None]).
    Reading a nil map finds no key, which is all the walker does with the
    inner maps; writing to one panics. *)
Definition fields : Type := gmap string (option (gmap string string)).

Definition symbols_of (f : fields) : gmap string (gmap string string) :=
  default (∅ : gmap string string) <$> f.

(** The package variable [DefaultToScrub] as the package initialises it. *)
Definition DefaultToScrub : option fields := Some {[ "password" := Some ∅ ]}.

Section Scrub.
Variable MaskLenVary : bool.
Variable DefaultMaskLen : Z.
Variable ToLower : string → string.
Variable reflect_IsZero : value string → bool.
Variable json_Marshal : option (value string) → option string.
Variable json_Unmarshal :
  string → option (value string) → option (option (value string)).
Variable xml_MarshalIndent : option (value string) → option string.
Variable xml_Unmarshal :
  string → option (value string) → option (option (value string)).

Definition invalidInput (cloning target : option (value string)) : bool :=
  match cloning, target with
  | None, _ => true
  | _, None => true
  | Some c, Some t => reflect_IsZero c || reflect_IsZero t
  end.

(** The cloning switch of [Scrub]: [inl] is an early return. *)
Definition cloneTarget (cloning target : option (value string))
    (dataType : DataType) : string + option (value string) :=
  if decide (dataType = JSONScrub) then
    match json_Marshal target with
    | None => inl "null"
    | Some b =>
        match json_Unmarshal b cloning with
        | None => inl "null"
        | Some cloned => inr cloned
        end
    end
  else if decide (dataType = XMLScrub) then
    match xml_MarshalIndent target with
    | None => inl ""
    | Some b =>
        match xml_Unmarshal b cloning with
        | None => inl ""
        | Some cloned => inr cloned
        end
    end
  else inl "null".

(** [Scrub(cloning, target, fieldsToScrub, dataType)], with the package
    variable [DefaultToScrub] as it stands before the call ([None] when it
    was set to nil) and as the call leaves it. With a nil [fieldsToScrub]
    the variable [fieldsToScrub] is the default map itself, and the
    assignment [fieldsToScrub["password"]["symbol"] = "*"] writes into the
    inner map that the default map holds under ["password"]; it panics
    when that inner map is nil or missing. *)
Definition Scrub (cloning target : option (value string))
    (fieldsToScrub : option fields) (dataType : DataType)
    (DefaultToScrub : option fields) : res (string * option fields) :=
  if invalidInput cloning target then
    Ok (if decide (dataType = JSONScrub) then "null"
        else if decide (dataType = XMLScrub) then "" else "null",
        DefaultToScrub)
  else
    match cloneTarget cloning target dataType with
    | inl early => Ok (early, DefaultToScrub)
    | inr cloned =>
        p <- match fieldsToScrub with
             | Some f => Ok (f, DefaultToScrub)
             | None =>
                 match DefaultToScrub with
                 | Some d =>
                     match d !! "password" with
                     | Some (Some inner) =>
                         let d' :=
                           <["password" :=
                               Some (<["symbol" := "*"]> inner)]> d in
                         Ok (d', Some d')
                     | _ => Panic
                     end
                 | None => Panic
                 end
             end;;
        let '(f, DefaultToScrub') := p in
        scrubbed <- scrubInternal MaskLenVary DefaultMaskLen ToLower
                      (symbols_of f) cloned "";;
        if decide (dataType = JSONScrub) then
          Ok (default "null" (json_Marshal scrubbed), DefaultToScrub')
        else if decide (dataType = XMLScrub) then
          Ok (default "" (xml_MarshalIndent scrubbed), DefaultToScrub')
        else Ok ("", DefaultToScrub')
    end.

End Scrub.

End CloneMutateSymbolMap.

(** * Clone and mutate, with field options (scrub.go, current generation) *)
Module CloneMutate.

(** [DataType] is a string type; any string can be passed. *)
Definition DataType := string.
Definition XMLScrub : DataType := "xml".
Definition JSONScrub : DataType := "json".
Definition defaultMaskLen : Z := 8.
Definition defaultMaskSymbol : string := "*".

(** The results of the seven methods of the [FieldScrubOptioner] interface. *)
Record FieldScrubOptioner : Type := {
  GetMaskingSymbol : string;
  PartMaskEnabled : bool;
  PartMaskMinFldLen : Z;
  PartMaskMaxFldLen : Z;
  PartMaskVisibleFrontLen : Z;
  PartMaskVisibleBackOnlyIfFldLenGreaterThan : Z;
  PartMaskVisibleBackLen : Z
}.

Definition defaultFieldScrubOpts : FieldScrubOptioner := {|
  GetMaskingSymbol := defaultMaskSymbol;
  PartMaskEnabled := false;
  PartMaskMinFldLen := 0;
  PartMaskMaxFldLen := 0;
  PartMaskVisibleFrontLen := 0;
  PartMaskVisibleBackOnlyIfFldLenGreaterThan := 0;
  PartMaskVisibleBackLen := 0
|}.

(** [PartScrubConf] and its constructor. *)
Module PartScrubConf.
Record t : Type := {
  PartMaskEnabled : bool;
  PartMaskMinFldLen : Z;
  PartMaskMaxFldLen : Z;
  VisibleFrontLen : Z;
  VisibleBackOnlyIfFldLenGreaterThan : Z;
  VisibleBackLen : Z
}.
End PartScrubConf.

Definition NewPartScrubConf (partMaskEnabled : bool)
    (partMaskMinFldLen partMaskMaxFldLen visibleFrontLen
     visibleBackOnlyIfFldLenGreaterThan visibleBackLen : Z)
    : PartScrubConf.t := {|
  PartScrubConf.PartMaskEnabled := partMaskEnabled;
  PartScrubConf.PartMaskMinFldLen := partMaskMinFldLen;
  PartScrubConf.PartMaskMaxFldLen := partMaskMaxFldLen;
  PartScrubConf.VisibleFrontLen := visibleFrontLen;
  PartScrubConf.VisibleBackOnlyIfFldLenGreaterThan :=
    visibleBackOnlyIfFldLenGreaterThan;
  PartScrubConf.VisibleBackLen := visibleBackLen
|}.

(** [map[string]FieldScrubOptioner]: a key may be bound to a nil interface
    ([None]), as in ["password": nil]. *)
Definition defaultToScrub : gmap string (option FieldScrubOptioner) :=
  {[ "password" := Some defaultFieldScrubOpts ]}.

Section Masking.
(** The process-wide flag [MaskLenVary], read at call time. *)
Variable MaskLenVary : bool.
(** [strings.ToLower] *)
Variable ToLower : string → string.

Definition maskLen (targetValueLen : Z) : Z :=
  if MaskLenVary then targetValueLen else defaultMaskLen.

Definition applyPartBackMask (value symbol : string) (visibleFrontLen : Z)
  : res string :=
  visibleFront <- slice value 0 visibleFrontLen;;
  maskedBack <- Repeat symbol (int_sub (len value) visibleFrontLen);;
  Ok (visibleFront +:+ maskedBack).

Definition applyPartMiddleMask (value symbol : string)
    (visibleFrontLen visibleBackLen : Z) : res string :=
  visibleFront <- slice value 0 visibleFrontLen;;
  visibleBack <- slice value (int_sub (len value) visibleBackLen) (len value);;
  maskedMiddle <- Repeat symbol
    (int_sub (int_sub (len value) visibleFrontLen) visibleBackLen);;
  Ok (visibleFront +:+ maskedMiddle +:+ visibleBack).

Definition applyFullMask (symbol : string) (maskLen : Z) : res string :=
  Repeat symbol maskLen.

(** [doMasking]: [canSet] is the result of [targetValue.CanSet()]. The Go
    function returns the pair [(mask, ok)]. *)
Definition doMasking (targetValue : value string) (canSet : bool)
    (fieldName : string)
    (fieldsToScrub : gmap string (option FieldScrubOptioner))
    (checkCanSet : bool) : res (string * bool) :=
  match fieldsToScrub !! ToLower fieldName with
  | Some opts =>
      if checkCanSet && negb canSet then Ok ("", false)
      else
        match targetValue with
        | VString s =>
            if negb (len s =? 0) then
              let symbol :=
                match opts with
                | Some o =>
                    if len (GetMaskingSymbol o) =? 1
                    then GetMaskingSymbol o else defaultMaskSymbol
                | None => defaultMaskSymbol
                end in
              let full :=
                mask <- applyFullMask symbol (maskLen (len s));;
                Ok (mask, true) in
              match opts with
              | Some o =>
                  if PartMaskEnabled o then
                    if len s <? PartMaskMinFldLen o then full
                    else if len s >? PartMaskMaxFldLen o then full
                    else if len s <?
                              PartMaskVisibleBackOnlyIfFldLenGreaterThan o
                    then
                      mask <- applyPartBackMask s symbol
                               (PartMaskVisibleFrontLen o);;
                      Ok (mask, true)
                    else if len s <=? PartMaskMaxFldLen o then
                      mask <- applyPartMiddleMask s symbol
                               (PartMaskVisibleFrontLen o)
                               (PartMaskVisibleBackLen o);;
                      Ok (mask, true)
                    else full
                  else full
              | None => full
              end
            else Ok ("", false)
        | _ => Ok ("", false)
        end
  | None => Ok ("", false)
  end.

Variable fieldsToScrub : gmap string (option FieldScrubOptioner).

(** [targetMap.SetMapIndex(k, v)] on the entries of a map. *)
Fixpoint SetMapIndex (entries : list (string * value string)) (k : string)
    (v : value string) : list (string * value string) :=
  match entries with
  | [] => [(k, v)]
  | (k', v') :: rest =>
      if decide (k' = k) then (k, v) :: rest
      else (k', v') :: SetMapIndex rest k v
  end.

(** The loops of [scrubInternalMap]; [rec] is [scrubInternalMap] called on
    a nested map. *)
Section MapLoops.
Variable rec : value string → res (value string).

(** [for i := 0; i < v.Elem().Len(); i++]: [arrValue.Elem()] panics on
    an element that is neither an interface nor a pointer. A nested map
    is a reference in Go and is updated in place; here the element is
    rebuilt around the updated map. *)
Fixpoint scrubInternalMap_elems (elems : list (value string))
    : res (list (value string)) :=
  match elems with
  | [] => Ok []
  | arrValue :: elems' =>
      a <- match arrValue with
           | VIface (Some (VMap _ as inner)) =>
               m <- rec inner;; Ok (VIface (Some m))
           | VPtr (Some (VMap _ as inner)) =>
               m <- rec inner;; Ok (VPtr (Some m))
           | VIface _ | VPtr _ => Ok arrValue
           | _ => Panic
           end;;
      rest <- scrubInternalMap_elems elems';;
      Ok (a :: rest)
  end.

(** [for _, k := range targetMap.MapKeys()]: the loop ranges over the
    keys together with the values [MapIndex] finds for them; [tm] is the
    map as updated so far, and the updated slice is stored back under
    its key. *)
Fixpoint scrubInternalMap_keys (keys tm : list (string * value string))
    {struct keys} : res (list (string * value string)) :=
  match keys with
  | [] => Ok tm
  | (k, v) :: rest =>
      match v with
      | VIface d =>
          tm1 <- match d with
                 | Some (VString s) =>
                     r <- doMasking (VString s) false k fieldsToScrub
                            false;;
                     let '(mask, ok) := r in
                     if ok
                     then Ok (SetMapIndex tm k
                                (VIface (Some (VString mask))))
                     else Ok tm
                 | _ => Ok tm
                 end;;
          tm2 <- match d with
                 | Some (VSeq elems) =>
                     elems' <- scrubInternalMap_elems elems;;
                     Ok (SetMapIndex tm1 k (VIface (Some (VSeq elems'))))
                 | _ => Ok tm1
                 end;;
          scrubInternalMap_keys rest tm2
      | _ => scrubInternalMap_keys rest tm
      end
  end.
End MapLoops.

(** [scrubInternalMap(targetMap, fieldsToScrub)]; [MapKeys] panics on a
    value that is not a map. *)
Fixpoint scrubInternalMap (targetMap : value string) : res (value string) :=
  match targetMap with
  | VMap entries =>
      tm <- scrubInternalMap_keys scrubInternalMap entries entries;;
      Ok (VMap tm)
  | _ => Panic
  end.

(** [scrubInternal] after the optional dereference; [rec] is
    [scrubInternal] called on the address of a field or element. Every
    value reached here was obtained through a pointer, so it is
    addressable and settable ([CanSet() = true]); unexported fields are
    skipped because [Addr().CanInterface()] is false for them. *)
Definition scrubInternal_kind
    (rec : value string → string → res (value string))
    (targetValue : value string) (fieldName : string)
    : res (value string) :=
  match targetValue with
  | VStruct fields =>
      fields' <-
        (fix loop (fs : list (string * bool * value string))
           : res (list (string * bool * value string)) :=
           match fs with
           | [] => Ok []
           | (name, exported, fValue) :: fs' =>
               f <- (if exported then rec fValue name else Ok fValue);;
               rest <- loop fs';;
               Ok ((name, exported, f) :: rest)
           end) fields;;
      Ok (VStruct fields')
  | VSeq elems =>
      elems' <-
        (fix loop (es : list (value string)) : res (list (value string)) :=
           match es with
           | [] => Ok []
           | arrValue :: es' =>
               a <- rec arrValue fieldName;;
               rest <- loop es';;
               Ok (a :: rest)
           end) elems;;
      Ok (VSeq elems')
  | VMap _ => scrubInternalMap targetValue
  | _ =>
      if decide (fieldName = "") then Ok targetValue
      else
        r <- doMasking targetValue true fieldName fieldsToScrub true;;
        let '(mask, ok) := r in
        if ok then Ok (VString mask) else Ok targetValue
  end.

(** [scrubInternal] from [targetType := targetValue.Type()] on, for a
    valid [targetValue := addrValue.Elem()]: a non-nil pointer is
    dereferenced once. *)
Fixpoint scrubInternal_at (targetValue : value string) (fieldName : string)
    {struct targetValue} : res (value string) :=
  match targetValue with
  | VPtr (Some pointee) =>
      p <- scrubInternal_kind scrubInternal_at pointee fieldName;;
      Ok (VPtr (Some p))
  | _ => scrubInternal_kind scrubInternal_at targetValue fieldName
  end.

(** [scrubInternal(target, fieldName, fieldsToScrub)]: [target] is an
    interface value, [None] when nil; anything but a non-nil pointer
    returns at once. The result is [target] with its pointee updated. *)
Definition scrubInternal (target : option (value string))
    (fieldName : string) : res (option (value string)) :=
  match target with
  | Some (VPtr (Some targetValue)) =>
      v <- scrubInternal_at targetValue fieldName;;
      Ok (Some (VPtr (Some v)))
  | _ => Ok target
  end.

End Masking.

Section Scrub.
Variable MaskLenVary : bool.
Variable ToLower : string → string.
(** [reflect.Value.IsZero] *)
Variable reflect_IsZero : value string → bool.
(** The codec: [json.Marshal], [json.Unmarshal], [xml.MarshalIndent] and
    [xml.Unmarshal]. [None] is an error. Unmarshalling into [cloning]
    gives [cloning] with its pointee filled in. *)
Variable json_Marshal : option (value string) → option string.
Variable json_Unmarshal :
  string → option (value string) → option (option (value string)).
Variable xml_MarshalIndent : option (value string) → option string.
Variable xml_Unmarshal :
  string → option (value string) → option (option (value string)).

Definition invalidInput (cloning target : option (value string)) : bool :=
  match cloning, target with
  | None, _ => true
  | _, None => true
  | Some c, Some t => reflect_IsZero c || reflect_IsZero t
  end.

(** The cloning switch of [Scrub]: [inl] is an early return. *)
Definition cloneTarget (cloning target : option (value string))
    (dataType : DataType) : string + option (value string) :=
  if decide (dataType = JSONScrub) then
    match json_Marshal target with
    | None => inl "null"
    | Some b =>
        match json_Unmarshal b cloning with
        | None => inl "null"
        | Some cloned => inr cloned
        end
    end
  else if decide (dataType = XMLScrub) then
    match xml_MarshalIndent target with
    | None => inl ""
    | Some b =>
        match xml_Unmarshal b cloning with
        | None => inl ""
        | Some cloned => inr cloned
        end
    end
  else inl "null".

(** [Scrub(cloning, target, fieldsToScrub, dataType)]; a nil map of fields
    is [None]. *)
Definition Scrub (cloning target : option (value string))
    (fieldsToScrub : option (gmap string (option FieldScrubOptioner)))
    (dataType : DataType) : res string :=
  if invalidInput cloning target then
    if decide (dataType = JSONScrub) then Ok "null"
    else if decide (dataType = XMLScrub) then Ok ""
    else Ok "null"
  else
    match cloneTarget cloning target dataType with
    | inl early => Ok early
    | inr cloned =>
        let fieldsToScrub := default defaultToScrub fieldsToScrub in
        scrubbed <- scrubInternal MaskLenVary ToLower fieldsToScrub
                      cloned "";;
        if decide (dataType = JSONScrub) then
          match json_Marshal scrubbed with
          | None => Ok "null"
          | Some b => Ok b
          end
        else if decide (dataType = XMLScrub) then
          match xml_MarshalIndent scrubbed with
          | None => Ok ""
          | Some b => Ok b
          end
        else Ok ""
    end.

End Scrub.

End CloneMutate.

(** * The options type of the tests and of the package documentation *)
Module ScrubTest.
Import CloneMutate.

(** [fieldScrubOpts]: [partScrubConf] is a pointer, [None] when nil. *)
Record fieldScrubOpts : Type := {
  maskingSymbol : string;
  partScrubConf : option PartScrubConf.t
}.

Definition newFieldScrubOpts (maskingSymbol : string)
    (partScrubConf : option PartScrubConf.t) : fieldScrubOpts :=
  {| maskingSymbol := maskingSymbol; partScrubConf := partScrubConf |}.

(** The seven methods of [*fieldScrubOpts], which make it a
    [FieldScrubOptioner]. *)
Definition optioner (f : fieldScrubOpts) : FieldScrubOptioner := {|
  GetMaskingSymbol := maskingSymbol f;
  PartMaskEnabled :=
    match partScrubConf f with
    | None => false
    | Some c => PartScrubConf.PartMaskEnabled c
    end;
  PartMaskMinFldLen :=
    match partScrubConf f with
    | None => 0
    | Some c => PartScrubConf.PartMaskMinFldLen c
    end;
  PartMaskMaxFldLen :=
    match partScrubConf f with
    | None => 0
    | Some c => PartScrubConf.PartMaskMaxFldLen c
    end;
  PartMaskVisibleFrontLen :=
    match partScrubConf f with
    | None => 0
    | Some c => PartScrubConf.VisibleFrontLen c
    end;
  PartMaskVisibleBackOnlyIfFldLenGreaterThan :=
    match partScrubConf f with
    | None => 0
    | Some c => PartScrubConf.VisibleBackOnlyIfFldLenGreaterThan c
    end;
  PartMaskVisibleBackLen :=
    match partScrubConf f with
    | None => 0
    | Some c => PartScrubConf.VisibleBackLen c
    end
|}.

End ScrubTest.

(** * The masks of the specification, in its own words *)
Module Spec.
Import CloneMutate.

(** The first [n] bytes of a string, and what is left after them. *)
Fixpoint keep_front (n : nat) (s : string) : string :=
  match n, s with
  | S n', String c s' => String c (keep_front n' s')
  | _, _ => ""
  end.

Fixpoint drop_front (n : nat) (s : string) : string :=
  match n, s with
  | S n', String _ s' => drop_front n' s'
  | _, _ => s
  end.

(** The last [n] bytes of a string. *)
Definition keep_back (n : nat) (s : string) : string :=
  drop_front (String.length s - n)%nat s.

Inductive mask_kind : Type :=
| FullMask
| FrontVisible
| MiddleVisible.

(** Section 4.2, decision order when partial masking is enabled, for a value
    of length [n]. *)
Definition decision (o : FieldScrubOptioner) (n : Z) : mask_kind :=
  if n <? PartMaskMinFldLen o then FullMask
  else if n >? PartMaskMaxFldLen o then FullMask
  else if n <? PartMaskVisibleBackOnlyIfFldLenGreaterThan o then FrontVisible
  else if n <=? PartMaskMaxFldLen o then MiddleVisible
  else FullMask.

(** "A policy with partial-masking disabled always produces a full mask";
    so does the absence of options. *)
Definition kind_of (opts : option FieldScrubOptioner) (n : Z) : mask_kind :=
  match opts with
  | Some o => if PartMaskEnabled o then decision o n else FullMask
  | None => FullMask
  end.

(** Symbol resolution: the configured symbol when it is a single character,
    the default symbol otherwise. *)
Definition symbol_of (opts : option FieldScrubOptioner) : string :=
  match opts with
  | Some o =>
      if decide (String.length (GetMaskingSymbol o) = 1%nat)
      then GetMaskingSymbol o else "*"
  | None => "*"
  end.

(** Full-mask length: the fixed default length, or the length of the value
    when the variable-length flag is set. *)
Definition full_mask_length (vary : bool) (v : string) : nat :=
  if vary then String.length v else 8%nat.

Definition full_mask (vary : bool) (symbol v : string) : string :=
  repeat_string symbol (full_mask_length vary v).

(** Keep the first [front] characters, fill the rest of the original length
    with the symbol. *)
Definition front_visible_mask (symbol v : string) (front : nat) : string :=
  keep_front front v +:+ repeat_string symbol (String.length v - front)%nat.

(** Keep the first [front] and the last [back] characters, fill what lies
    between with the symbol. *)
Definition middle_visible_mask (symbol v : string) (front back : nat)
    : string :=
  keep_front front v
  +:+ repeat_string symbol (String.length v - front - back)%nat
  +:+ keep_back back v.

Definition mask_of (vary : bool) (symbol : string)
    (opts : option FieldScrubOptioner) (v : string) : string :=
  match kind_of opts (len v), opts with
  | FrontVisible, Some o =>
      front_visible_mask symbol v (Z.to_nat (PartMaskVisibleFrontLen o))
  | MiddleVisible, Some o =>
      middle_visible_mask symbol v (Z.to_nat (PartMaskVisibleFrontLen o))
        (Z.to_nat (PartMaskVisibleBackLen o))
  | _, _ => full_mask vary symbol v
  end.

(** What the codec's decoder builds for a keyed-map: distinct keys, and
    every element of a sequence held by a dynamically typed entry is itself
    dynamically typed (an interface), with the same holding for the maps
    nested in them. *)
Fixpoint decoded (v : value string) : bool :=
  match v with
  | VMap entries =>
      bool_decide (NoDup (entries.*1)) &&
      forallb (λ '(_, x),
                 match x with
                 | VIface (Some (VSeq elems)) =>
                     forallb (λ e,
                                match e with
                                | VIface (Some (VMap _ as inner)) =>
                                    decoded inner
                                | VIface _ => true
                                | _ => false
                                end) elems
                 | _ => true
                 end) entries
  | _ => true
  end.

Section KeyedMap.
Variable MaskLenVary : bool.
Variable ToLower : string → string.
Variable fieldsToScrub : gmap string (option FieldScrubOptioner).

(** Section 4.1, keyed-map: one element of a sequence held by an entry; a
    nested map is recursed into, anything else is left as it is. *)
Definition scrub_element (rec : value string → res (value string))
    (e : value string) : res (value string) :=
  match e with
  | VIface (Some (VMap _ as inner)) => m <- rec inner;; Ok (VIface (Some m))
  | _ => Ok e
  end.

(** One entry: a string under a dynamically typed entry is masked with the
    key as the field name; a sequence is recursed into element by element;
    every other shape, and every entry of a statically typed map, is left
    untouched. *)
Definition scrub_entry (rec : value string → res (value string))
    (kv : string * value string) : res (string * value string) :=
  let '(k, v) := kv in
  match v with
  | VIface (Some (VString s)) =>
      r <- doMasking MaskLenVary ToLower (VString s) false k fieldsToScrub
             false;;
      Ok (k, if r.2 then VIface (Some (VString r.1)) else v)
  | VIface (Some (VSeq elems)) =>
      elems' <- mapM (scrub_element rec) elems;;
      Ok (k, VIface (Some (VSeq elems')))
  | _ => Ok (k, v)
  end.

Fixpoint scrub_keyed_map (m : value string) : res (value string) :=
  match m with
  | VMap entries =>
      entries' <- mapM (scrub_entry scrub_keyed_map) entries;;
      Ok (VMap entries')
  | _ => Panic
  end.
End KeyedMap.

(** Two walkers [rec1] and [rec2] agree on the map held by a sequence
    element of a decoded map, on the elements of a sequence entry, and on a
    decoded map. *)
Definition element_agrees (rec1 rec2 : value string → res (value string))
    (e : value string) : Prop :=
  match e with
  | VIface (Some (VMap _ as inner)) => rec1 inner = rec2 inner
  | VIface _ => True
  | _ => False
  end.

Definition entry_agrees (rec1 rec2 : value string → res (value string))
    (kv : string * value string) : Prop :=
  match kv.2 with
  | VIface (Some (VSeq elems)) => Forall (element_agrees rec1 rec2) elems
  | _ => True
  end.

Definition agrees (rec1 rec2 : value string → res (value string))
    (m : value string) : Prop :=
  decoded m = true → rec1 m = rec2 m.

Definition agrees_inside (rec1 rec2 : value string → res (value string))
    (e : value string) : Prop :=
  match e with
  | VIface (Some (VMap _ as inner)) => agrees rec1 rec2 inner
  | _ => True
  end.

(** The partial masks stay within the value. *)
Definition in_bounds (opts : option FieldScrubOptioner) (v : string) : Prop :=
  match kind_of opts (len v), opts with
  | FrontVisible, Some o => 0 <= PartMaskVisibleFrontLen o <= len v
  | MiddleVisible, Some o =>
      0 <= PartMaskVisibleFrontLen o ∧ 0 <= PartMaskVisibleBackLen o ∧
      PartMaskVisibleFrontLen o + PartMaskVisibleBackLen o <= len v
  | _, _ => True
  end.

End Spec.

(** * Values the walkers are run on *)
Module Shape.
Import CloneMutate.

(** What holds of every Go value: the length of a string fits [int], and
    the keys of a map are distinct. *)
Fixpoint representable (v : value string) : bool :=
  match v with
  | VString s => bool_decide (len s <= int_max)
  | VOther _ => true
  | VPtr p | VIface p =>
      match p with Some x => representable x | None => true end
  | VStruct fields => forallb (λ '(_, _, x), representable x) fields
  | VSeq elems => forallb representable elems
  | VMap entries =>
      bool_decide (NoDup (entries.*1)) &&
      forallb (λ '(_, x), representable x) entries
  end.

(** The shape the decoder gives to the maps it builds: the elements of a
    sequence held by a dynamically typed entry are interfaces (or pointers),
    the only kinds [arrValue.Elem()] accepts. *)
Fixpoint boxed (v : value string) : bool :=
  match v with
  | VString _ | VOther _ => true
  | VPtr p | VIface p => match p with Some x => boxed x | None => true end
  | VStruct fields => forallb (λ '(_, _, x), boxed x) fields
  | VSeq elems => forallb boxed elems
  | VMap entries =>
      forallb (λ '(_, x),
                 boxed x &&
                 match x with
                 | VIface (Some (VSeq elems)) =>
                     forallb (λ e, match e with
                                   | VIface _ | VPtr _ => true
                                   | _ => false
                                   end) elems
                 | _ => true
                 end) entries
  end.

(** A value that holds no struct and no map at any depth: none of its
    strings has a field name or a key. *)
Fixpoint unnamed (v : value string) : bool :=
  match v with
  | VString _ | VOther _ => true
  | VPtr p | VIface p => match p with Some x => unnamed x | None => true end
  | VSeq elems => forallb unnamed elems
  | VStruct _ | VMap _ => false
  end.

(** A value that holds no map at any depth. *)
Fixpoint no_maps (v : value string) : bool :=
  match v with
  | VString _ | VOther _ => true
  | VPtr p | VIface p => match p with Some x => no_maps x | None => true end
  | VStruct fields => forallb (λ '(_, _, x), no_maps x) fields
  | VSeq elems => forallb no_maps elems
  | VMap _ => false
  end.

(** One round of the loop over the fields of a struct, [rec] being
    [scrubInternal] called on the address of the field. *)
Definition scrubInternal_field
    (rec : value string → string → res (value string))
    (f : string * bool * value string) : res (string * bool * value string) :=
  let '(name, exported, fValue) := f in
  x <- (if exported : bool then rec fValue name else Ok fValue);;
  Ok (name, exported, x).

(** One round of the loop over the elements of a sequence held by a map
    entry, [rec] being [scrubInternalMap] called on a nested map. *)
Definition scrubInternalMap_elem (rec : value string → res (value string))
    (arrValue : value string) : res (value string) :=
  match arrValue with
  | VIface (Some (VMap _ as inner)) => m <- rec inner;; Ok (VIface (Some m))
  | VPtr (Some (VMap _ as inner)) => m <- rec inner;; Ok (VPtr (Some m))
  | VIface _ | VPtr _ => Ok arrValue
  | _ => Panic
  end.

Section Entry.
Variable MaskLenVary : bool.
Variable ToLower : string → string.
Variable fieldsToScrub : gmap string (option FieldScrubOptioner).
Variable rec : value string → res (value string).

(** One round of the key loop of [scrubInternalMap], as a function of the
    entry it is at. *)
Definition scrubInternalMap_entry (kv : string * value string)
    : res (string * value string) :=
  let '(k, v) := kv in
  match v with
  | VIface (Some (VString s)) =>
      r <- doMasking MaskLenVary ToLower (VString s) false k fieldsToScrub
             false;;
      Ok (k, if r.2 then VIface (Some (VString r.1)) else v)
  | VIface (Some (VSeq elems)) =>
      elems' <- scrubInternalMap_elems rec elems;;
      Ok (k, VIface (Some (VSeq elems')))
  | _ => Ok (k, v)
  end.
End Entry.

(** Two values show the same bytes through the partial mask that [opts]
    selects for the first of them. *)
Definition same_visible (opts : option FieldScrubOptioner) (s1 s2 : string)
    : Prop :=
  match Spec.kind_of opts (len s1), opts with
  | Spec.FrontVisible, Some o =>
      Spec.keep_front (Z.to_nat (PartMaskVisibleFrontLen o)) s1
      = Spec.keep_front (Z.to_nat (PartMaskVisibleFrontLen o)) s2
  | Spec.MiddleVisible, Some o =>
      Spec.keep_front (Z.to_nat (PartMaskVisibleFrontLen o)) s1
      = Spec.keep_front (Z.to_nat (PartMaskVisibleFrontLen o)) s2 ∧
      Spec.keep_back (Z.to_nat (PartMaskVisibleBackLen o)) s1
      = Spec.keep_back (Z.to_nat (PartMaskVisibleBackLen o)) s2
  | _, _ => True
  end.

(** The second-generation set of names as a current-generation one: the
    options [newFieldScrubOpts(symbol, nil)] of the tests, with the symbol
    the inner map gives, ["*"] when it gives none. *)
Definition upgrade (f : gmap string (gmap string string))
    : gmap string (option FieldScrubOptioner) :=
  (λ opts, Some (ScrubTest.optioner
                   (ScrubTest.newFieldScrubOpts
                      (default "*" (opts !! "symbol")) None))) <$> f.

End Shape.

(** * Test data of the repository *)
Module Examples.
Import CloneMutate.

(** [newFieldScrubOpts(symbol, NewPartScrubConf(true, 10, 19, 6, 16, 4))] of
    scrub_test.go. *)
Definition partOpts (symbol : string) : FieldScrubOptioner := {|
  GetMaskingSymbol := symbol;
  PartMaskEnabled := true;
  PartMaskMinFldLen := 10;
  PartMaskMaxFldLen := 19;
  PartMaskVisibleFrontLen := 6;
  PartMaskVisibleBackOnlyIfFldLenGreaterThan := 16;
  PartMaskVisibleBackLen := 4
|}.

(** The same thresholds with a negative visible-front length. *)
Definition negativeFrontOpts : FieldScrubOptioner := {|
  GetMaskingSymbol := "*";
  PartMaskEnabled := true;
  PartMaskMinFldLen := 10;
  PartMaskMaxFldLen := 19;
  PartMaskVisibleFrontLen := -1;
  PartMaskVisibleBackOnlyIfFldLenGreaterThan := 16;
  PartMaskVisibleBackLen := 4
|}.

Definition secretFields : gmap string (option FieldScrubOptioner) :=
  {[ "username" := Some (partOpts "*") ]}.

(** [newFieldScrubOpts(".", nil)] of scrub_test.go. *)
Definition dotOpts : FieldScrubOptioner := {|
  GetMaskingSymbol := ".";
  PartMaskEnabled := false;
  PartMaskMinFldLen := 0;
  PartMaskMaxFldLen := 0;
  PartMaskVisibleFrontLen := 0;
  PartMaskVisibleBackOnlyIfFldLenGreaterThan := 0;
  PartMaskVisibleBackLen := 0
|}.

Definition keysFields : gmap string (option FieldScrubOptioner) :=
  {[ "keys" := Some dotOpts ]}.

Definition negativeFrontFields : gmap string (option FieldScrubOptioner) :=
  {[ "username" := Some negativeFrontOpts ]}.

(** The policy and the [MapData] of [TestScrubNestedMapSupportPartialMask],
    the map as [json.Unmarshal] builds it. *)
Definition mapFields : gmap string (option FieldScrubOptioner) :=
  {[ "91" := Some (partOpts "*"); "86" := Some (partOpts "*") ]}.

Definition mapData : value string :=
  VMap [ ("72", VIface (Some (VSeq
            [ VIface (Some (VMap [("86", VIface (Some (VString
                                           "1234567891111111111")))]));
              VIface (Some (VMap [("77", VIface (Some (VString
                                           "84240000083AB8700FAE0CB0DD")))]))
            ])));
         ("91", VIface (Some (VString "1234567891111111111"))) ].

Definition mapDataScrubbed : value string :=
  VMap [ ("72", VIface (Some (VSeq
            [ VIface (Some (VMap [("86", VIface (Some (VString
                                           "123456*********1111")))]));
              VIface (Some (VMap [("77", VIface (Some (VString
                                           "84240000083AB8700FAE0CB0DD")))]))
            ])));
         ("91", VIface (Some (VString "123456*********1111"))) ].

(** A stand-in for [json.Marshal] on the values of the examples: no
    escaping, unexported fields left out. *)
Definition quote : string := String (ascii_of_nat 34) "".

Fixpoint toyJSON (v : value string) : string :=
  match v with
  | VString s => quote +:+ s +:+ quote
  | VOther raw => raw
  | VPtr None | VIface None => "null"
  | VPtr (Some x) | VIface (Some x) => toyJSON x
  | VStruct fields =>
      "{" +:+ String.concat ","
                (flat_map (λ '(name, exported, x),
                             if exported : bool
                             then [quote +:+ name +:+ quote +:+ ":"
                                   +:+ toyJSON x]
                             else []) fields) +:+ "}"
  | VSeq elems => "[" +:+ String.concat "," (List.map toyJSON elems) +:+ "]"
  | VMap entries =>
      "{" +:+ String.concat ","
                (List.map (λ '(k, x), quote +:+ k +:+ quote +:+ ":"
                                      +:+ toyJSON x) entries) +:+ "}"
  end.

Definition toyMarshal (v : option (value string)) : option string :=
  match v with
  | Some x => Some (toyJSON x)
  | None => Some "null"
  end.

(** [var s = "secret"; T{A: &s, B: &s}]: two pointer fields to one string
    variable, at address 0 of the store. *)
Definition aliased : value MutateRestore.loc :=
  VStruct [ ("A", true, VPtr (Some (VString 0%nat)));
            ("B", true, VPtr (Some (VString 0%nat))) ].

Definition aliasedStore : MutateRestore.store :=
  MutateRestore.upd (λ _, "") 0%nat "secret".

Definition aliasedFields : gmap string bool := {[ "a" := true; "b" := true ]}.

(** [User{Username: "Shyam Rathi", Password: "nutanix/4u"}] of the tests,
    its strings at addresses 0 and 1. *)
Definition user : value MutateRestore.loc :=
  VStruct [ ("Username", true, VString 0%nat);
            ("Password", true, VString 1%nat) ].

Definition userStore : MutateRestore.store :=
  MutateRestore.upd (MutateRestore.upd (λ _, "") 0%nat "Shyam Rathi")
    1%nat "nutanix/4u".

(** Thresholds under which a value of length 10 keeps its first 6 and its
    last 4 bytes. *)
Definition tightOpts : FieldScrubOptioner := {|
  GetMaskingSymbol := "*";
  PartMaskEnabled := true;
  PartMaskMinFldLen := 10;
  PartMaskMaxFldLen := 10;
  PartMaskVisibleFrontLen := 6;
  PartMaskVisibleBackOnlyIfFldLenGreaterThan := 10;
  PartMaskVisibleBackLen := 4
|}.

Definition tightFields : gmap string (option FieldScrubOptioner) :=
  {[ "username" := Some tightOpts ]}.

(** [&User{Username: "Shyam Rathi", Password: "nutanix/4u"}] and
    [&User{}] of the tests, and a stand-in for [json.Unmarshal] that fills
    the clone with the former. *)
Definition userValue : value string :=
  VStruct [ ("Username", true, VString "Shyam Rathi");
            ("Password", true, VString "nutanix/4u") ].

Definition userEmpty : value string :=
  VStruct [ ("Username", true, VString ""); ("Password", true, VString "") ].

Definition toyUnmarshal (b : string) (cloning : option (value string))
    : option (option (value string)) :=
  Some (Some (VPtr (Some userValue))).

(** A set of fields whose key is not in lower case. *)
Definition capitalFields : gmap string (option FieldScrubOptioner) :=
  {[ "Password" := Some defaultFieldScrubOpts ]}.

(** A second-generation set of names, ["keys"] with the symbol ["."] as in
    the tests. *)
Definition symbolFields : gmap string (gmap string string) :=
  {[ "keys" := {[ "symbol" := "." ]} ]}.

End Examples.

(** Closes a goal made of closed computations. *)
Ltac by_computation :=
  vm_compute;
  repeat match goal with |- _ ∧ _ => split end;
  first [ reflexivity | discriminate | (intro; discriminate) | exact I ].

(** * Strings and integers *)

Lemma len_nonneg (s : string) : 0 <= len s.
Proof. unfold len. lia. Qed.

Lemma length_app_string (a b : string) :
  String.length (a +:+ b) = (String.length a + String.length b)%nat.
Proof. induction a as [|c a IH]; simpl; [done | by rewrite IH]. Qed.

Lemma len_app (a b : string) : len (a +:+ b) = len a + len b.
Proof. unfold len. rewrite length_app_string. lia. Qed.

Lemma length_repeat_string (s : string) (n : nat) :
  String.length (repeat_string s n) = (n * String.length s)%nat.
Proof.
  induction n as [|n IH]; simpl; [done |].
  rewrite length_app_string, IH. lia.
Qed.

Lemma length_keep_front (n : nat) (s : string) :
  (n ≤ String.length s)%nat → String.length (Spec.keep_front n s) = n.
Proof.
  revert s. induction n as [|n IH]; intros [|c s] H; simpl in *; try done.
  - lia.
  - rewrite IH; [done | lia].
Qed.

Lemma length_drop_front (n : nat) (s : string) :
  String.length (Spec.drop_front n s) = (String.length s - n)%nat.
Proof.
  revert s. induction n as [|n IH]; intros [|c s]; simpl; try done.
Qed.

Lemma length_keep_back (n : nat) (s : string) :
  (n ≤ String.length s)%nat → String.length (Spec.keep_back n s) = n.
Proof. intros H. unfold Spec.keep_back. rewrite length_drop_front. lia. Qed.

Lemma keep_front_all (n : nat) (s : string) :
  (String.length s ≤ n)%nat → Spec.keep_front n s = s.
Proof.
  revert s. induction n as [|n IH]; intros [|c s] H; simpl in *; try done.
  - lia.
  - rewrite IH; [done | lia].
Qed.

Lemma substring_keep_drop (n m : nat) (s : string) :
  String.substring n m s = Spec.keep_front m (Spec.drop_front n s).
Proof.
  revert m s. induction n as [|n IH]; intros m s.
  - simpl. revert s. induction m as [|m IHm]; intros [|c s]; simpl; try done.
    by rewrite IHm.
  - destruct s as [|c s]; simpl; [by destruct m | apply IH].
Qed.

Lemma wrap_id (z : Z) : is_int z → wrap z = z.
Proof.
  unfold is_int, wrap, int_min, int_max. intros H.
  rewrite Z.mod_small; lia.
Qed.

Lemma wrap_above (z : Z) :
  int_max < z < int_max + 2 ^ 64 + 1 → wrap z = z - 2 ^ 64.
Proof.
  unfold wrap, int_min, int_max. intros H.
  replace (z - - 2 ^ 63) with ((z - 2 ^ 64 + 2 ^ 63) + 1 * 2 ^ 64) by lia.
  rewrite Z.mod_add by lia. rewrite Z.mod_small; lia.
Qed.

Lemma slice_prefix (s : string) (n : Z) :
  0 <= n <= len s → slice s 0 n = Ok (Spec.keep_front (Z.to_nat n) s).
Proof.
  intros H. unfold slice.
  replace ((0 <=? 0) && (0 <=? n) && (n <=? len s)) with true
    by (symmetry; repeat (apply andb_true_intro; split); lia).
  rewrite substring_keep_drop, Z.sub_0_r. simpl. by destruct s.
Qed.

Lemma slice_prefix_panic (s : string) (n : Z) :
  ¬ (0 <= n <= len s) → slice s 0 n = Panic.
Proof.
  intros H. unfold slice.
  destruct (0 <=? n) eqn:E1; simpl; [|done].
  destruct (n <=? len s) eqn:E2; [lia | done].
Qed.

Lemma slice_suffix (s : string) (n : Z) :
  0 <= n <= len s →
  slice s (len s - n) (len s) = Ok (Spec.keep_back (Z.to_nat n) s).
Proof.
  intros H. unfold slice.
  replace ((0 <=? len s - n) && (len s - n <=? len s) && (len s <=? len s))
    with true by (symmetry; repeat (apply andb_true_intro; split); lia).
  rewrite substring_keep_drop. unfold Spec.keep_back, len in *.
  replace (Z.to_nat (Z.of_nat (String.length s) - n))
    with (String.length s - Z.to_nat n)%nat by lia.
  rewrite keep_front_all; [done |].
  rewrite length_drop_front. lia.
Qed.

Lemma slice_low_panic (s : string) (lo hi : Z) : lo < 0 → slice s lo hi = Panic.
Proof. intros H. unfold slice. destruct (0 <=? lo) eqn:E; [lia | done]. Qed.

Lemma slice_high_panic (s : string) (lo : Z) :
  len s < lo → slice s lo (len s) = Panic.
Proof.
  intros H. unfold slice. destruct (0 <=? lo); simpl; [|done].
  destruct (lo <=? len s) eqn:E; [lia | done].
Qed.

Lemma Repeat_byte (symbol : string) (n : Z) :
  String.length symbol = 1%nat → 0 <= n <= int_max →
  Repeat symbol n = Ok (repeat_string symbol (Z.to_nat n)).
Proof.
  intros Hs H. unfold Repeat, len. rewrite Hs.
  change (Z.of_nat 1) with 1. rewrite Z.mul_1_l. unfold int_max in *.
  destruct (n <? 0) eqn:E1; [lia |].
  destruct (2 ^ 63 - 1 <? n) eqn:E2; [lia | done].
Qed.

Lemma Repeat_negative (symbol : string) (n : Z) : n < 0 → Repeat symbol n = Panic.
Proof. intros H. unfold Repeat. destruct (n <? 0) eqn:E; [done | lia]. Qed.

(** * The masking strategy of the current generation *)
Section MaskingProofs.
Import CloneMutate.
Variable MaskLenVary : bool.
Variable ToLower : string → string.

Lemma symbol_of_length (opts : option FieldScrubOptioner) :
  String.length (Spec.symbol_of opts) = 1%nat.
Proof.
  unfold Spec.symbol_of. destruct opts as [o|]; [|done].
  by case_decide.
Qed.

Lemma len_eqb_1 (s : string) :
  (len s =? 1) = bool_decide (String.length s = 1%nat).
Proof.
  unfold len. case_bool_decide as H.
  - rewrite H. done.
  - apply Z.eqb_neq. lia.
Qed.

Lemma applyFullMask_spec (symbol v : string) :
  String.length symbol = 1%nat → len v <= int_max →
  applyFullMask symbol (maskLen MaskLenVary (len v))
  = Ok (Spec.full_mask MaskLenVary symbol v).
Proof.
  intros Hs Hv. unfold applyFullMask, maskLen, Spec.full_mask,
    Spec.full_mask_length, defaultMaskLen.
  pose proof (len_nonneg v).
  destruct MaskLenVary.
  - rewrite Repeat_byte by (done || lia). unfold len. by rewrite Nat2Z.id.
  - rewrite Repeat_byte by (done || unfold int_max; lia). done.
Qed.

Lemma applyPartBackMask_spec (symbol v : string) (front : Z) :
  String.length symbol = 1%nat → len v <= int_max → 0 <= front <= len v →
  applyPartBackMask v symbol front
  = Ok (Spec.front_visible_mask symbol v (Z.to_nat front)).
Proof.
  intros Hs Hv Hf. unfold applyPartBackMask, Spec.front_visible_mask.
  rewrite slice_prefix by done. cbn [bind].
  unfold int_sub. rewrite wrap_id by (unfold is_int, int_min; lia).
  rewrite Repeat_byte by (done || lia). cbn [bind].
  unfold len. do 3 f_equal. lia.
Qed.

Lemma applyPartMiddleMask_spec (symbol v : string) (front back : Z) :
  String.length symbol = 1%nat → len v <= int_max →
  0 <= front → 0 <= back → front + back <= len v →
  applyPartMiddleMask v symbol front back
  = Ok (Spec.middle_visible_mask symbol v (Z.to_nat front) (Z.to_nat back)).
Proof.
  intros Hs Hv Hf Hb Hfb.
  unfold applyPartMiddleMask, Spec.middle_visible_mask.
  rewrite slice_prefix by lia. cbn [bind].
  unfold int_sub.
  rewrite (wrap_id (len v - front)) by (unfold is_int, int_min; lia).
  rewrite !wrap_id by (unfold is_int, int_min; lia).
  rewrite slice_suffix by lia. cbn [bind].
  rewrite Repeat_byte by (done || lia). cbn [bind].
  unfold len. do 4 f_equal. lia.
Qed.

(** What [doMasking] returns for a non-empty string whose field is in the
    policy: the mask of the specification, built from the resolved symbol. *)
Lemma doMasking_matched fieldsToScrub fieldName opts (v : string)
    (canSet checkCanSet : bool) :
  fieldsToScrub !! ToLower fieldName = Some opts →
  checkCanSet && negb canSet = false →
  v ≠ "" → len v <= int_max → Spec.in_bounds opts v →
  doMasking MaskLenVary ToLower (VString v) canSet fieldName fieldsToScrub
    checkCanSet
  = Ok (Spec.mask_of MaskLenVary (Spec.symbol_of opts) opts v, true).
Proof.
  intros Hl Hc Hne Hv Hb. unfold doMasking. rewrite Hl, Hc.
  assert ((len v =? 0) = false) as ->.
  { apply Z.eqb_neq. unfold len. destruct v; [done | simpl; lia]. }
  simpl negb. cbv iota.
  assert ((match opts with
           | Some o => if len (GetMaskingSymbol o) =? 1
                       then GetMaskingSymbol o else defaultMaskSymbol
           | None => defaultMaskSymbol
           end) = Spec.symbol_of opts) as Hsym.
  { unfold Spec.symbol_of. destruct opts as [o|]; [|done].
    rewrite len_eqb_1. case_bool_decide; by case_decide. }
  rewrite Hsym. clear Hsym.
  pose proof (symbol_of_length opts) as Hs.
  set (symbol := Spec.symbol_of opts) in *. clearbody symbol.
  unfold Spec.mask_of, Spec.in_bounds, Spec.kind_of in *.
  destruct opts as [o|]; cbv zeta.
  2: { rewrite applyFullMask_spec by done. done. }
  destruct (PartMaskEnabled o).
  2: { rewrite applyFullMask_spec by done. done. }
  unfold Spec.decision in *.
  destruct (len v <? PartMaskMinFldLen o).
  { rewrite applyFullMask_spec by done. done. }
  destruct (len v >? PartMaskMaxFldLen o).
  { rewrite applyFullMask_spec by done. done. }
  destruct (len v <? PartMaskVisibleBackOnlyIfFldLenGreaterThan o).
  { rewrite applyPartBackMask_spec by done. done. }
  destruct (len v <=? PartMaskMaxFldLen o).
  { destruct Hb as (? & ? & ?).
    rewrite applyPartMiddleMask_spec by done. done. }
  rewrite applyFullMask_spec by done. done.
Qed.

Lemma applyPartBackMask_panic (symbol v : string) (front : Z) :
  ¬ (0 <= front <= len v) → applyPartBackMask v symbol front = Panic.
Proof.
  intros H. unfold applyPartBackMask. by rewrite slice_prefix_panic.
Qed.

Lemma applyPartMiddleMask_panic (symbol v : string) (front back : Z) :
  len v <= int_max → is_int back →
  ¬ (0 <= front ∧ 0 <= back ∧ front + back <= len v) →
  applyPartMiddleMask v symbol front back = Panic.
Proof.
  intros Hv Hb H. unfold applyPartMiddleMask.
  pose proof (len_nonneg v) as Hn.
  destruct (decide (0 <= front <= len v)) as [Hf|Hf].
  2: { by rewrite slice_prefix_panic. }
  rewrite slice_prefix by done. cbn [bind]. unfold int_sub.
  unfold is_int, int_min, int_max in *.
  destruct (decide (back < 0)) as [Hneg|Hpos].
  { destruct (decide (len v - back <= 2 ^ 63 - 1)).
    - rewrite (wrap_id (len v - back))
        by (unfold is_int, int_min, int_max; lia).
      rewrite slice_high_panic by lia. done.
    - rewrite (wrap_above (len v - back)) by (unfold int_max; lia).
      rewrite slice_low_panic by lia. done. }
  destruct (decide (len v < back)) as [Hbig|Hsmall].
  { rewrite (wrap_id (len v - back))
      by (unfold is_int, int_min, int_max; lia).
    rewrite slice_low_panic by lia. done. }
  rewrite (wrap_id (len v - back)) by (unfold is_int, int_min, int_max; lia).
  rewrite slice_suffix by lia. cbn [bind].
  rewrite (wrap_id (len v - front)) by (unfold is_int, int_min, int_max; lia).
  rewrite wrap_id by (unfold is_int, int_min, int_max; lia).
  rewrite Repeat_negative by lia. done.
Qed.

Lemma length_front_visible_mask (symbol v : string) (front : nat) :
  String.length symbol = 1%nat → (front ≤ String.length v)%nat →
  String.length (Spec.front_visible_mask symbol v front) = String.length v.
Proof.
  intros Hs Hf. unfold Spec.front_visible_mask.
  rewrite length_app_string, length_keep_front, length_repeat_string by done.
  lia.
Qed.

Lemma length_middle_visible_mask (symbol v : string) (front back : nat) :
  String.length symbol = 1%nat → (front + back ≤ String.length v)%nat →
  String.length (Spec.middle_visible_mask symbol v front back)
  = String.length v.
Proof.
  intros Hs Hf. unfold Spec.middle_visible_mask.
  rewrite !length_app_string, length_keep_front, length_repeat_string,
    length_keep_back by lia.
  lia.
Qed.

End MaskingProofs.

(** C2: for a non-empty string whose field has a policy with partial masking
    enabled, the mask is chosen in this order: full mask below the minimum
    length, full mask above the maximum length, front-visible mask below the
    back-visible threshold (the first [visibleFrontLength] bytes, then the
    symbol on the remaining [len - visibleFrontLength] positions),
    middle-visible mask up to the maximum length, full mask otherwise. The
    visible lengths are taken within the value, as the claim's wording
    supposes; [canSet] and [checkCanSet] cover both call sites. *)
Theorem masking_decision_order (MaskLenVary : bool) (ToLower : string → string)
    (fieldsToScrub : gmap string (option CloneMutate.FieldScrubOptioner))
    (fieldName : string) (o : CloneMutate.FieldScrubOptioner) (v : string)
    (canSet checkCanSet : bool) :
  fieldsToScrub !! ToLower fieldName = Some (Some o) →
  checkCanSet && negb canSet = false →
  CloneMutate.PartMaskEnabled o = true →
  v ≠ "" → len v <= int_max → Spec.in_bounds (Some o) v →
  CloneMutate.doMasking MaskLenVary ToLower (VString v) canSet fieldName
    fieldsToScrub checkCanSet
  = Ok (match Spec.decision o (len v) with
        | Spec.FullMask =>
            Spec.full_mask MaskLenVary (Spec.symbol_of (Some o)) v
        | Spec.FrontVisible =>
            Spec.front_visible_mask (Spec.symbol_of (Some o)) v
              (Z.to_nat (CloneMutate.PartMaskVisibleFrontLen o))
        | Spec.MiddleVisible =>
            Spec.middle_visible_mask (Spec.symbol_of (Some o)) v
              (Z.to_nat (CloneMutate.PartMaskVisibleFrontLen o))
              (Z.to_nat (CloneMutate.PartMaskVisibleBackLen o))
        end, true).
Proof.
  intros Hl Hc He Hne Hv Hb.
  rewrite (doMasking_matched MaskLenVary ToLower fieldsToScrub fieldName
             (Some o) v canSet checkCanSet) by done.
  unfold Spec.mask_of, Spec.kind_of. rewrite He.
  by destruct (Spec.decision o (len v)).
Qed.

Lemma masking_decision_order_witness :
  CloneMutate.doMasking true ToLower_ascii (VString "123456789111111") true
    "Username" Examples.secretFields true
  = Ok ("123456*********", true).
Proof.
  exact (masking_decision_order true ToLower_ascii Examples.secretFields
           "Username" (Examples.partOpts "*") "123456789111111" true true
           ltac:(by_computation) ltac:(by_computation) ltac:(by_computation)
           ltac:(by_computation) ltac:(by_computation) ltac:(by_computation)).
Defined.

(** C4: a non-empty matched string that receives a full mask (no options,
    partial masking disabled, or a length outside the minimum and maximum)
    gets a mask of the fixed default length 8 when [MaskLenVary] is
    disabled, and of the length of the original string when it is enabled;
    the mask is returned to the walker, which writes it into the field. *)
Theorem full_mask_length_by_flag (MaskLenVary : bool)
    (ToLower : string → string)
    (fieldsToScrub : gmap string (option CloneMutate.FieldScrubOptioner))
    (fieldName : string) (opts : option CloneMutate.FieldScrubOptioner)
    (v : string) (canSet checkCanSet : bool) :
  fieldsToScrub !! ToLower fieldName = Some opts →
  checkCanSet && negb canSet = false →
  v ≠ "" → len v <= int_max →
  Spec.kind_of opts (len v) = Spec.FullMask →
  ∃ mask,
    CloneMutate.doMasking MaskLenVary ToLower (VString v) canSet fieldName
      fieldsToScrub checkCanSet = Ok (mask, true) ∧
    String.length mask = (if MaskLenVary then String.length v else 8%nat) ∧
    CloneMutate.scrubInternal_at MaskLenVary ToLower fieldsToScrub
      (VStruct [(fieldName, true, VString v)]) ""
    = (if decide (fieldName = "")
       then Ok (VStruct [(fieldName, true, VString v)])
       else Ok (VStruct [(fieldName, true, VString mask)])).
Proof.
  intros Hl Hc Hne Hv Hk.
  assert (Spec.in_bounds opts v) as Hb
    by (unfold Spec.in_bounds; by rewrite Hk).
  exists (Spec.mask_of MaskLenVary (Spec.symbol_of opts) opts v).
  split; [by apply doMasking_matched |]. split.
  - unfold Spec.mask_of. rewrite Hk. unfold Spec.full_mask.
    rewrite length_repeat_string, symbol_of_length.
    unfold Spec.full_mask_length. destruct MaskLenVary; lia.
  - cbn [CloneMutate.scrubInternal_at CloneMutate.scrubInternal_kind bind].
    case_decide; [done |].
    rewrite (doMasking_matched MaskLenVary ToLower fieldsToScrub fieldName
               opts v true true) by done.
    done.
Qed.

Lemma full_mask_length_by_flag_witness :
  ∃ mask,
    CloneMutate.doMasking false ToLower_ascii (VString "nutanix/4u") true
      "Password" CloneMutate.defaultToScrub true = Ok (mask, true) ∧
    String.length mask = 8%nat ∧
    CloneMutate.scrubInternal_at false ToLower_ascii CloneMutate.defaultToScrub
      (VStruct [("Password", true, VString "nutanix/4u")]) ""
    = Ok (VStruct [("Password", true, VString mask)]).
Proof.
  exact (full_mask_length_by_flag false ToLower_ascii
           CloneMutate.defaultToScrub "Password"
           (Some CloneMutate.defaultFieldScrubOpts) "nutanix/4u" true true
           ltac:(by_computation) ltac:(by_computation) ltac:(by_computation)
           ltac:(by_computation) ltac:(by_computation)).
Defined.

(** C8: the mask of a non-empty matched string is built from the policy's
    symbol exactly when that symbol is one byte long; an empty or longer
    symbol, and a nil policy entry, give the default symbol ["*"]. *)
Theorem symbol_resolution (MaskLenVary : bool) (ToLower : string → string)
    (fieldsToScrub : gmap string (option CloneMutate.FieldScrubOptioner))
    (fieldName : string) (opts : option CloneMutate.FieldScrubOptioner)
    (v : string) (canSet checkCanSet : bool) :
  fieldsToScrub !! ToLower fieldName = Some opts →
  checkCanSet && negb canSet = false →
  v ≠ "" → len v <= int_max → Spec.in_bounds opts v →
  ∃ mask,
    CloneMutate.doMasking MaskLenVary ToLower (VString v) canSet fieldName
      fieldsToScrub checkCanSet = Ok (mask, true) ∧
    (∀ o, opts = Some o →
          String.length (CloneMutate.GetMaskingSymbol o) = 1%nat →
          mask = Spec.mask_of MaskLenVary (CloneMutate.GetMaskingSymbol o)
                   opts v) ∧
    (∀ o, opts = Some o →
          String.length (CloneMutate.GetMaskingSymbol o) ≠ 1%nat →
          mask = Spec.mask_of MaskLenVary "*" opts v) ∧
    (opts = None → mask = Spec.mask_of MaskLenVary "*" opts v).
Proof.
  intros Hl Hc Hne Hv Hb.
  exists (Spec.mask_of MaskLenVary (Spec.symbol_of opts) opts v).
  split; [by apply doMasking_matched |].
  repeat split.
  - intros o -> Hs. unfold Spec.symbol_of. by case_decide.
  - intros o -> Hs. unfold Spec.symbol_of. by case_decide.
  - by intros ->.
Qed.

Lemma symbol_resolution_witness :
  ∃ mask,
    CloneMutate.doMasking true ToLower_ascii (VString "key_1") true "Keys"
      Examples.keysFields true = Ok (mask, true) ∧
    mask = ".....".
Proof.
  destruct (symbol_resolution true ToLower_ascii Examples.keysFields
              "Keys" (Some Examples.dotOpts) "key_1" true true
              ltac:(by_computation) ltac:(by_computation)
              ltac:(by_computation) ltac:(by_computation)
              ltac:(by_computation))
    as (mask & Hm & Hone & _ & _).
  exists mask. split; [exact Hm |].
  exact (Hone _ eq_refl eq_refl).
Defined.

(** C9, as stated, fails: a visible-front length of -1 is below the length of
    the value, and with the visible-back length 4 their sum is too, yet the
    front-visible branch panics on [value[0:-1]] instead of returning a
    string of the original length. *)
Lemma negative_visible_front_panics :
  CloneMutate.PartMaskVisibleFrontLen Examples.negativeFrontOpts
    <= len "1234567890" ∧
  CloneMutate.PartMaskVisibleFrontLen Examples.negativeFrontOpts
    + CloneMutate.PartMaskVisibleBackLen Examples.negativeFrontOpts
    <= len "1234567890" ∧
  CloneMutate.doMasking true ToLower_ascii (VString "1234567890") true
    "Username" Examples.negativeFrontFields true = Panic.
Proof. by_computation. Qed.

(** C9, amended: the partial masks slice without bounds checks. For a
    non-empty matched value whose length lies between the minimum and the
    maximum field length (every value reaching these branches), the
    front-visible branch returns a mask exactly when
    [0 <= visibleFrontLength <= len(value)] and panics otherwise; the
    middle-visible branch returns a mask exactly when both visible lengths
    are non-negative and [visibleFrontLength + visibleBackLength <=
    len(value)], and panics otherwise; a mask that is returned has exactly
    the length of the original. *)
Theorem partial_mask_bounds (MaskLenVary : bool) (ToLower : string → string)
    (fieldsToScrub : gmap string (option CloneMutate.FieldScrubOptioner))
    (fieldName : string) (o : CloneMutate.FieldScrubOptioner) (v : string) :
  fieldsToScrub !! ToLower fieldName = Some (Some o) →
  CloneMutate.PartMaskEnabled o = true →
  v ≠ "" → len v <= int_max →
  is_int (CloneMutate.PartMaskVisibleBackLen o) →
  CloneMutate.PartMaskMinFldLen o <= len v <= CloneMutate.PartMaskMaxFldLen o →
  let front := CloneMutate.PartMaskVisibleFrontLen o in
  let back := CloneMutate.PartMaskVisibleBackLen o in
  let r := CloneMutate.doMasking MaskLenVary ToLower (VString v) true
             fieldName fieldsToScrub true in
  (len v < CloneMutate.PartMaskVisibleBackOnlyIfFldLenGreaterThan o →
     (0 <= front <= len v →
        ∃ mask, r = Ok (mask, true) ∧ len mask = len v) ∧
     (¬ (0 <= front <= len v) → r = Panic)) ∧
  (CloneMutate.PartMaskVisibleBackOnlyIfFldLenGreaterThan o <= len v →
     (0 <= front ∧ 0 <= back ∧ front + back <= len v →
        ∃ mask, r = Ok (mask, true) ∧ len mask = len v) ∧
     (¬ (0 <= front ∧ 0 <= back ∧ front + back <= len v) → r = Panic)).
Proof.
  intros Hl He Hne Hv Hib Hrange front back r.
  assert (Hdec : ∀ k, Spec.decision o (len v) = k →
                 Spec.kind_of (Some o) (len v) = k)
    by (intros k <-; unfold Spec.kind_of; by rewrite He).
  assert (Hpanic : ∀ k,
    (len v <? CloneMutate.PartMaskMinFldLen o) = false →
    (len v >? CloneMutate.PartMaskMaxFldLen o) = false →
    r = (if len v <? CloneMutate.PartMaskVisibleBackOnlyIfFldLenGreaterThan o
         then bind (CloneMutate.applyPartBackMask v (Spec.symbol_of (Some o))
                      front) (λ mask, Ok (mask, true))
         else if len v <=? CloneMutate.PartMaskMaxFldLen o
         then bind (CloneMutate.applyPartMiddleMask v
                      (Spec.symbol_of (Some o)) front back)
                (λ mask, Ok (mask, true))
         else k)).
  { intros k H1 H2. subst r. unfold CloneMutate.doMasking.
    rewrite Hl. cbn [andb negb].
    assert ((len v =? 0) = false) as ->.
    { apply Z.eqb_neq. unfold len. destruct v; [done | simpl; lia]. }
    cbn [negb]. rewrite He, H1, H2.
    assert ((if len (CloneMutate.GetMaskingSymbol o) =? 1
             then CloneMutate.GetMaskingSymbol o
             else CloneMutate.defaultMaskSymbol) = Spec.symbol_of (Some o))
      as ->.
    { unfold Spec.symbol_of. rewrite len_eqb_1.
      case_bool_decide; by case_decide. }
    destruct (len v <? _); [done |].
    destruct (Z.leb_spec (len v) (CloneMutate.PartMaskMaxFldLen o)); [done | lia]. }
  assert ((len v <? CloneMutate.PartMaskMinFldLen o) = false) as H1
    by (apply Z.ltb_ge; lia).
  assert ((len v >? CloneMutate.PartMaskMaxFldLen o) = false) as H2
    by (rewrite Z.gtb_ltb; apply Z.ltb_ge; lia).
  pose proof (symbol_of_length (Some o)) as Hs.
  split; intros Hthr.
  - assert (Spec.decision o (len v) = Spec.FrontVisible) as Hk.
    { unfold Spec.decision. rewrite H1, H2.
      destruct (Z.ltb_spec (len v)
                  (CloneMutate.PartMaskVisibleBackOnlyIfFldLenGreaterThan o)); [done | lia]. }
    split; intros Hb.
    + exists (Spec.front_visible_mask (Spec.symbol_of (Some o)) v
                (Z.to_nat front)). split.
      * subst r. rewrite (doMasking_matched MaskLenVary ToLower fieldsToScrub
                            fieldName (Some o) v true true); try done.
        -- unfold Spec.mask_of. by rewrite (Hdec _ Hk).
        -- unfold Spec.in_bounds. by rewrite (Hdec _ Hk).
      * unfold len. rewrite length_front_visible_mask; [done | done |].
        unfold len in Hb. lia.
    + rewrite (Hpanic Panic H1 H2).
      destruct (Z.ltb_spec (len v)
                  (CloneMutate.PartMaskVisibleBackOnlyIfFldLenGreaterThan o)); [|lia].
      by rewrite applyPartBackMask_panic.
  - assert (Spec.decision o (len v) = Spec.MiddleVisible) as Hk.
    { unfold Spec.decision. rewrite H1, H2.
      destruct (Z.ltb_spec (len v)
                  (CloneMutate.PartMaskVisibleBackOnlyIfFldLenGreaterThan o)); [lia |].
      destruct (Z.leb_spec (len v) (CloneMutate.PartMaskMaxFldLen o)); [done | lia]. }
    split; intros Hb.
    + exists (Spec.middle_visible_mask (Spec.symbol_of (Some o)) v
                (Z.to_nat front) (Z.to_nat back)). split.
      * subst r. rewrite (doMasking_matched MaskLenVary ToLower fieldsToScrub
                            fieldName (Some o) v true true); try done.
        -- unfold Spec.mask_of. by rewrite (Hdec _ Hk).
        -- unfold Spec.in_bounds. by rewrite (Hdec _ Hk).
      * unfold len. rewrite length_middle_visible_mask; [done | done |].
        unfold len in Hb. lia.
    + rewrite (Hpanic Panic H1 H2).
      destruct (Z.ltb_spec (len v)
                  (CloneMutate.PartMaskVisibleBackOnlyIfFldLenGreaterThan o)); [lia |].
      destruct (Z.leb_spec (len v) (CloneMutate.PartMaskMaxFldLen o)); [|lia].
      by rewrite applyPartMiddleMask_panic.
Qed.

Lemma partial_mask_bounds_witness :
  ∃ mask,
    CloneMutate.doMasking true ToLower_ascii (VString "1234567891111111111")
      true "Username" Examples.secretFields true = Ok (mask, true) ∧
    len mask = len "1234567891111111111".
Proof.
  exact (proj1 (proj2 (partial_mask_bounds true ToLower_ascii
                         Examples.secretFields "Username"
                         (Examples.partOpts "*") "1234567891111111111"
                         ltac:(by_computation) ltac:(by_computation)
                         ltac:(by_computation) ltac:(by_computation)
                         ltac:(by_computation) ltac:(by_computation))
                  ltac:(by_computation))
           ltac:(by_computation)).
Defined.

(** C3, as stated, fails with the thresholds (10, 19, 6, 16, 4): a value of
    length 20 is above the maximum 19 and gets a full mask, not the
    middle-visible mask, whatever the flag; and with [MaskLenVary] disabled
    the full mask of a value of length 9 has length 8. *)
Lemma length_20_is_not_middle_visible :
  len "12345678911111111110" = 20 ∧
  CloneMutate.doMasking true ToLower_ascii (VString "12345678911111111110")
    true "Username" Examples.secretFields true
  = Ok ("********************", true) ∧
  CloneMutate.doMasking false ToLower_ascii (VString "12345678911111111110")
    true "Username" Examples.secretFields true
  = Ok ("********", true) ∧
  Spec.middle_visible_mask "*" "12345678911111111110" 6 4
  = "123456**********1110" ∧
  "********************" ≠ "123456**********1110" ∧
  len "123456789" = 9 ∧
  CloneMutate.doMasking false ToLower_ascii (VString "123456789") true
    "Username" Examples.secretFields true
  = Ok ("********", true).
Proof. by_computation. Qed.

(** C3, amended: with the thresholds (10, 19, 6, 16, 4) and a one-byte
    symbol, a matched string of length 9 gets a full mask, of length 9 when
    [MaskLenVary] is enabled and 8 otherwise; one of length 15 keeps its
    first 6 bytes, followed by 9 symbols; one of length 20 gets a full mask,
    of length 20 when [MaskLenVary] is enabled and 8 otherwise; and one of
    length 19, exactly the maximum, keeps its first 6 and last 4 bytes around
    9 symbols. *)
Theorem partial_mask_boundaries (MaskLenVary : bool)
    (ToLower : string → string)
    (fieldsToScrub : gmap string (option CloneMutate.FieldScrubOptioner))
    (fieldName symbol v : string) :
  String.length symbol = 1%nat →
  fieldsToScrub !! ToLower fieldName = Some (Some (Examples.partOpts symbol)) →
  let r := CloneMutate.doMasking MaskLenVary ToLower (VString v) true
             fieldName fieldsToScrub true in
  (String.length v = 9%nat →
     r = Ok (repeat_string symbol (if MaskLenVary then 9 else 8), true)) ∧
  (String.length v = 15%nat →
     r = Ok (Spec.keep_front 6 v +:+ repeat_string symbol 9, true)) ∧
  (String.length v = 20%nat →
     r = Ok (repeat_string symbol (if MaskLenVary then 20 else 8), true)) ∧
  (String.length v = 19%nat →
     r = Ok (Spec.keep_front 6 v +:+ repeat_string symbol 9
             +:+ Spec.keep_back 4 v, true)).
Proof.
  intros Hs Hl r.
  assert (Hsym : Spec.symbol_of (Some (Examples.partOpts symbol)) = symbol).
  { unfold Spec.symbol_of. cbn [CloneMutate.GetMaskingSymbol Examples.partOpts].
    by case_decide. }
  assert (Hr : ∀ n : nat, String.length v = n → (0 < n ≤ 20)%nat →
    Spec.in_bounds (Some (Examples.partOpts symbol)) v →
    r = Ok (Spec.mask_of MaskLenVary symbol
              (Some (Examples.partOpts symbol)) v, true)).
  { intros n Hn Hrange Hb. subst r. rewrite <- Hsym at 1.
    apply doMasking_matched; try done.
    - intros ->. simpl in Hn. lia.
    - unfold len, int_max. lia. }
  repeat split; intros Hn.
  - rewrite (Hr _ Hn) by (lia || (unfold Spec.in_bounds, len; by rewrite Hn)).
    unfold Spec.mask_of, Spec.full_mask, Spec.full_mask_length, len.
    rewrite Hn. by destruct MaskLenVary.
  - rewrite (Hr _ Hn)
      by (lia || (unfold Spec.in_bounds, len; rewrite Hn; by vm_compute)).
    unfold Spec.mask_of, Spec.front_visible_mask, len. by rewrite Hn.
  - rewrite (Hr _ Hn) by (lia || (unfold Spec.in_bounds, len; by rewrite Hn)).
    unfold Spec.mask_of, Spec.full_mask, Spec.full_mask_length, len.
    rewrite Hn. by destruct MaskLenVary.
  - rewrite (Hr _ Hn)
      by (lia || (unfold Spec.in_bounds, len; rewrite Hn; by vm_compute)).
    unfold Spec.mask_of, Spec.middle_visible_mask, len. by rewrite Hn.
Qed.

Lemma partial_mask_boundaries_witness :
  CloneMutate.doMasking true ToLower_ascii (VString "1234567891111111111")
    true "Username" Examples.secretFields true
  = Ok ("123456*********1111", true).
Proof.
  exact (proj2 (proj2 (proj2
           (partial_mask_boundaries true ToLower_ascii Examples.secretFields
              "Username" "*" "1234567891111111111"
              ltac:(by_computation) ltac:(by_computation))))
           ltac:(by_computation)).
Defined.

(** * The keyed-map walker *)
Section KeyedMapProofs.
Import CloneMutate.
Variable MaskLenVary : bool.
Variable ToLower : string → string.
Variable fieldsToScrub : gmap string (option FieldScrubOptioner).

Lemma SetMapIndex_middle (done rest : list (string * value string))
    (k : string) (v v' : value string) :
  k ∉ done.*1 →
  SetMapIndex (done ++ (k, v) :: rest) k v' = done ++ (k, v') :: rest.
Proof.
  induction done as [|[k0 v0] done IH]; intros Hk; simpl.
  - by rewrite decide_True.
  - rewrite fmap_cons, not_elem_of_cons in Hk. destruct Hk as [Hne Hk].
    simpl in Hne. rewrite decide_False by done. by rewrite IH.
Qed.

Lemma scrubInternalMap_elems_spec rec1 rec2 (elems : list (value string)) :
  Forall (Spec.element_agrees rec1 rec2) elems →
  scrubInternalMap_elems rec1 elems = mapM (Spec.scrub_element rec2) elems.
Proof.
  induction 1 as [|e es He _ IH]; simpl; [done |].
  rewrite IH. f_equal.
  destruct e as [| | |[[]|]| | |]; simpl in He; try done.
  by rewrite He.
Qed.

Lemma scrubInternalMap_keys_spec rec1 rec2
    (rest done : list (string * value string)) :
  NoDup ((done ++ rest).*1) →
  Forall (Spec.entry_agrees rec1 rec2) rest →
  scrubInternalMap_keys MaskLenVary ToLower fieldsToScrub rec1 rest
    (done ++ rest)
  = (rest' <- mapM (Spec.scrub_entry MaskLenVary ToLower fieldsToScrub rec2)
                rest;;
     Ok (done ++ rest')).
Proof.
  revert done. induction rest as [|[k v] rest IH]; intros done Hnd Hag.
  - simpl. by rewrite app_nil_r.
  - apply Forall_cons in Hag as [Hkv Hag].
    assert (Hk : k ∉ done.*1).
    { rewrite fmap_app, fmap_cons in Hnd.
      apply NoDup_app in Hnd as (_ & Hdisj & _).
      intros Hin. apply (Hdisj k Hin). simpl. left. }
    assert (Hnext : ∀ v', NoDup (((done ++ [(k, v')]) ++ rest).*1)).
    { intros v'. rewrite <- app_assoc. simpl.
      rewrite fmap_app, fmap_cons in *. done. }
    assert (Hstep : ∀ v',
      scrubInternalMap_keys MaskLenVary ToLower fieldsToScrub rec1 rest
        (done ++ (k, v') :: rest)
      = (rest' <- (ys <- mapM (Spec.scrub_entry MaskLenVary ToLower
                                 fieldsToScrub rec2) rest;;
                   Ok ((k, v') :: ys));;
         Ok (done ++ rest'))).
    { intros v'. specialize (IH (done ++ [(k, v')]) (Hnext v') Hag).
      rewrite <- app_assoc in IH. simpl in IH. rewrite IH.
      destruct (mapM _ rest); simpl; [|done].
      by rewrite <- app_assoc. }
    cbn [scrubInternalMap_keys mapM Spec.scrub_entry].
    destruct v as [| | |d| | |]; cbn [bind]; try apply Hstep.
    destruct d as [x|]; cbn [bind]; [|apply Hstep].
    destruct x; cbn [bind]; try apply Hstep.
    + (* a string under a dynamically typed entry *)
      destruct (doMasking _ _ _ _ _ _ _) as [[mask ok]|]; cbn [bind];
        [|done].
      destruct ok; cbn [fst snd].
      * rewrite SetMapIndex_middle by done. apply Hstep.
      * apply Hstep.
    + (* a sequence under a dynamically typed entry *)
      unfold Spec.entry_agrees in Hkv. cbn [snd] in Hkv.
      rewrite (scrubInternalMap_elems_spec rec1 rec2) by done.
      destruct (mapM _ elems) as [elems'|]; cbn [bind]; [|done].
      rewrite SetMapIndex_middle by done. apply Hstep.
Qed.

(** A map of a static value type (no entry is an interface) comes back as
    it went in. *)
Lemma scrubInternalMap_keys_typed rec (rest tm : list (string * value string)) :
  Forall (λ kv, match kv.2 with VIface _ => False | _ => True end) rest →
  scrubInternalMap_keys MaskLenVary ToLower fieldsToScrub rec rest tm
  = Ok tm.
Proof.
  induction 1 as [|[k v] rest Hv _ IH]; simpl; [done |].
  by destruct v.
Qed.

Local Abbreviation code := (scrubInternalMap MaskLenVary ToLower fieldsToScrub).
Local Abbreviation spec :=
  (Spec.scrub_keyed_map MaskLenVary ToLower fieldsToScrub).

Lemma scrubInternalMap_spec (m : value string) :
  match m with
  | VMap _ => Spec.agrees code spec m
  | VIface (Some (VMap _ as inner)) => Spec.agrees code spec inner
  | VIface (Some (VSeq elems)) | VSeq elems =>
      Forall (Spec.agrees_inside code spec) elems
  | _ => True
  end.
Proof.
  induction m as [| |p IH|d IH|fields IH|elems IH|entries IH]
    using value_ind'; try done.
  - destruct d as [[]|]; done.
  - eapply Forall_impl; [exact IH |].
    intros [| | |[[]|]| | |]; simpl; done.
  - intros Hdec. cbn [Spec.decoded] in Hdec.
    apply andb_true_iff in Hdec as [Hnd Hall].
    apply bool_decide_eq_true in Hnd.
    cbn [scrubInternalMap Spec.scrub_keyed_map].
    assert (Forall (Spec.entry_agrees code spec) entries) as Hag; last first.
    { pose proof (scrubInternalMap_keys_spec code spec entries [] Hnd Hag)
        as Hkeys.
      simpl in Hkeys. rewrite Hkeys. by destruct (mapM _ entries). }
    rewrite forallb_forall in Hall.
    apply Forall_forall. intros [k x] Hin.
    rewrite Forall_forall in IH. specialize (IH _ Hin).
    specialize (Hall (k, x)). cbn [snd] in *.
    unfold Spec.entry_agrees. cbn [snd].
    destruct x as [| | |[[]|]| | |]; try done.
    specialize (Hall ltac:(by apply list_elem_of_In)).
    cbn in Hall. rewrite forallb_forall in Hall.
    apply Forall_forall. intros e He.
    rewrite Forall_forall in IH. specialize (IH _ He).
    specialize (Hall e ltac:(by apply list_elem_of_In)).
    destruct e as [| | |[[]|]| | |]; try done.
    simpl. by apply IH.
Qed.

End KeyedMapProofs.



(** Outside that shape: a sequence whose elements are not interfaces, which
    no decoder builds but a clone receptacle that was not empty may hold,
    makes the walker panic at [arrValue.Elem()]. *)
Lemma unboxed_sequence_element_panics :
  CloneMutate.scrubInternal_at false ToLower_ascii CloneMutate.defaultToScrub
    (VMap [("old", VIface (Some (VSeq [VString "x"])))]) "MapData" = Panic.
Proof. reflexivity. Qed.

(** C5: an empty string is never replaced by a mask, whatever the field name
    and the policy: [doMasking] reports no mask; the walker of the current
    generation leaves an empty string field and an empty string map entry as
    they are; so does the string case of the second generation; and the
    first generation, in the mask pass and in the restore pass, neither
    writes the variable nor touches the saved values. *)
Theorem empty_string_untouched (MaskLenVary : bool) (DefaultMaskLen : Z)
    (ToLower : string → string)
    (fieldsToScrub : gmap string (option CloneMutate.FieldScrubOptioner))
    (symbols : gmap string (gmap string string))
    (names : gmap string bool)
    (fieldName : string) (canSet checkCanSet mask : bool)
    (σ : MutateRestore.store) (l : MutateRestore.loc) (saved : list string) :
  CloneMutate.doMasking MaskLenVary ToLower (VString "") canSet fieldName
    fieldsToScrub checkCanSet = Ok ("", false) ∧
  CloneMutate.scrubInternal_at MaskLenVary ToLower fieldsToScrub
    (VStruct [(fieldName, true, VString "")]) ""
  = Ok (VStruct [(fieldName, true, VString "")]) ∧
  CloneMutate.scrubInternal_at MaskLenVary ToLower fieldsToScrub
    (VMap [(fieldName, VIface (Some (VString "")))]) ""
  = Ok (VMap [(fieldName, VIface (Some (VString "")))]) ∧
  CloneMutateSymbolMap.scrubLeaf MaskLenVary DefaultMaskLen ToLower symbols
    (VString "") fieldName = Ok (VString "") ∧
  let st := {| MutateRestore.mem := MutateRestore.upd σ l "";
               MutateRestore.savedValues := saved |} in
  MutateRestore.scrubInternal_at ToLower names mask
    (VStruct [(fieldName, true, VString l)]) "" st = Ok st.
Proof.
  assert (Hd : ∀ cs ccs,
    CloneMutate.doMasking MaskLenVary ToLower (VString "") cs fieldName
      fieldsToScrub ccs = Ok ("", false)).
  { intros cs ccs. unfold CloneMutate.doMasking.
    destruct (fieldsToScrub !! ToLower fieldName); [|done].
    by destruct (ccs && negb cs). }
  repeat split.
  - apply Hd.
  - cbn [CloneMutate.scrubInternal_at CloneMutate.scrubInternal_kind bind].
    case_decide; [done |]. by rewrite Hd.
  - cbn [CloneMutate.scrubInternal_at CloneMutate.scrubInternal_kind
         CloneMutate.scrubInternalMap CloneMutate.scrubInternalMap_keys bind].
    by rewrite Hd.
  - unfold CloneMutateSymbolMap.scrubLeaf. case_decide; [done |].
    by destruct (symbols !! ToLower fieldName).
  - cbn [MutateRestore.scrubInternal_at MutateRestore.scrubInternal_kind bind].
    unfold MutateRestore.scrubLeaf. case_decide; [done |].
    destruct (names !! ToLower fieldName); [|done].
    cbn [MutateRestore.mem]. unfold MutateRestore.upd.
    by rewrite decide_True.
Qed.

(** C7: when the target is nil, the clone receptacle is nil, or one of them
    is zero-valued, and when the codec fails to encode the target or to
    decode into the clone, [Scrub] returns without panic the empty
    representation of the format: ["null"] for JSON and [""] for XML. *)
Theorem invalid_input_and_codec_failure (MaskLenVary : bool)
    (ToLower : string → string) (reflect_IsZero : value string → bool)
    (json_Marshal : option (value string) → option string)
    (json_Unmarshal :
       string → option (value string) → option (option (value string)))
    (xml_MarshalIndent : option (value string) → option string)
    (xml_Unmarshal :
       string → option (value string) → option (option (value string)))
    (cloning target : option (value string))
    (fieldsToScrub : option (gmap string (option CloneMutate.FieldScrubOptioner)))
    (dataType : CloneMutate.DataType) :
  let Scrub := CloneMutate.Scrub MaskLenVary ToLower reflect_IsZero
                 json_Marshal json_Unmarshal xml_MarshalIndent xml_Unmarshal in
  let encode := if decide (dataType = CloneMutate.JSONScrub)
                then json_Marshal else xml_MarshalIndent in
  let decode := if decide (dataType = CloneMutate.JSONScrub)
                then json_Unmarshal else xml_Unmarshal in
  dataType = CloneMutate.JSONScrub ∨ dataType = CloneMutate.XMLScrub →
  target = None ∨ cloning = None ∨
  (∃ c, cloning = Some c ∧ reflect_IsZero c = true) ∨
  (∃ t, target = Some t ∧ reflect_IsZero t = true) ∨
  encode target = None ∨
  (∃ b, encode target = Some b ∧ decode b cloning = None) →
  Scrub cloning target fieldsToScrub dataType
  = Ok (if decide (dataType = CloneMutate.JSONScrub) then "null" else "").
Proof.
  intros Scrub encode decode Hfmt Hbad. subst Scrub encode decode.
  unfold CloneMutate.Scrub, CloneMutate.cloneTarget.
  destruct (CloneMutate.invalidInput reflect_IsZero cloning target) eqn:Hinv.
  { destruct Hfmt as [-> | ->]; done. }
  unfold CloneMutate.invalidInput in Hinv.
  destruct cloning as [c|]; [|done]. destruct target as [t|]; [|done].
  apply orb_false_iff in Hinv as [Hc Ht].
  destruct Hbad as [? | [? | [(c' & ? & Hz) | [(t' & ? & Hz) | Hcodec]]]];
    try done; simplify_eq; try congruence.
  destruct Hfmt as [-> | ->]; repeat case_decide; try done;
    destruct Hcodec as [-> | (b & -> & ->)]; done.
Qed.

Lemma invalid_input_and_codec_failure_witness :
  CloneMutate.Scrub false ToLower_ascii (λ _, false)
    Examples.toyMarshal (λ _ _, None) (λ _, None) (λ _ _, None)
    (Some (VPtr (Some (VStruct [("Password", true, VString "")]))))
    None None CloneMutate.XMLScrub
  = Ok "".
Proof.
  exact (invalid_input_and_codec_failure false ToLower_ascii (λ _, false)
           Examples.toyMarshal (λ _ _, None) (λ _, None) (λ _ _, None)
           (Some (VPtr (Some (VStruct [("Password", true, VString "")]))))
           None None CloneMutate.XMLScrub
           (or_intror eq_refl) (or_introl eq_refl)).
Defined.

(** * Mutate and restore *)
Section MutateRestoreProofs.
Import MutateRestore.
Variable ToLower : string → string.
Variable fieldsToScrub : gmap string bool.
Variable mask : bool.

Lemma bind_Ok {A : Type} (m : res A) : (x <- m;; Ok x) = m.
Proof. by destruct m. Qed.

Lemma scrubLocs_app (ls1 ls2 : list loc) (st : state) :
  scrubLocs mask (ls1 ++ ls2) st
  = (st' <- scrubLocs mask ls1 st;; scrubLocs mask ls2 st').
Proof.
  revert st. induction ls1 as [|l ls1 IH]; intros st; simpl; [done |].
  destruct (scrubLoc mask l st); simpl; [apply IH | done].
Qed.

Lemma scrubLeaf_locs (targetValue : value loc) (fieldName : string)
    (st : state) :
  scrubLeaf ToLower fieldsToScrub mask targetValue fieldName st
  = scrubLocs mask (leaf_locs ToLower fieldsToScrub targetValue fieldName) st.
Proof.
  unfold scrubLeaf, leaf_locs. case_decide; [done |].
  destruct (fieldsToScrub !! ToLower fieldName); [|done].
  destruct targetValue; try done.
  simpl. by rewrite bind_Ok.
Qed.

Lemma scrubInternal_kind_struct (fields : list (string * bool * value loc))
    (fieldName : string) (st : state) :
  Forall (λ f, walk_is_fold ToLower fieldsToScrub mask f.2) fields →
  scrubInternal_kind ToLower fieldsToScrub mask
    (scrubInternal_at ToLower fieldsToScrub mask) (VStruct fields)
    fieldName st
  = scrubLocs mask
      (kind_locs ToLower fieldsToScrub (visited ToLower fieldsToScrub)
         (VStruct fields) fieldName) st.
Proof.
  intros IH. revert st.
  induction IH as [|[[name exported] fValue] fs Hf _ IHfs]; intros st;
    [done |].
  cbn [scrubInternal_kind kind_locs flat_map] in *.
  rewrite scrubLocs_app. unfold walk_is_fold in Hf. cbn [snd] in Hf.
  destruct exported.
  - rewrite (Hf name st).
    destruct (scrubLocs mask _ st); simpl; [apply IHfs | done].
  - simpl. apply IHfs.
Qed.

Lemma scrubInternal_kind_seq (elems : list (value loc))
    (fieldName : string) (st : state) :
  Forall (walk_is_fold ToLower fieldsToScrub mask) elems →
  scrubInternal_kind ToLower fieldsToScrub mask
    (scrubInternal_at ToLower fieldsToScrub mask) (VSeq elems) fieldName st
  = scrubLocs mask
      (kind_locs ToLower fieldsToScrub (visited ToLower fieldsToScrub)
         (VSeq elems) fieldName) st.
Proof.
  intros IH. revert st.
  induction IH as [|e es He _ IHes]; intros st; [done |].
  cbn [scrubInternal_kind kind_locs flat_map] in *.
  rewrite scrubLocs_app, (He fieldName st).
  destruct (scrubLocs mask _ st); simpl; [apply IHes | done].
Qed.

(** Each pass of the walker is the fold of [scrubLoc] over the string
    variables it visits. *)
Lemma scrubInternal_at_locs (targetValue : value loc) :
  walk_is_fold ToLower fieldsToScrub mask targetValue.
Proof.
  induction targetValue as [l|raw|p IH|d IH|fields IH|elems IH|entries IH]
    using value_ind'; intros fieldName st.
  - apply scrubLeaf_locs.
  - apply scrubLeaf_locs.
  - destruct p as [pointee|]; [|apply scrubLeaf_locs].
    cbn [scrubInternal_at visited].
    destruct pointee as [| |q| | | |]; try apply scrubLeaf_locs;
      try apply (IH fieldName st).
  - apply scrubLeaf_locs.
  - by apply scrubInternal_kind_struct.
  - by apply scrubInternal_kind_seq.
  - apply scrubLeaf_locs.
Qed.

End MutateRestoreProofs.

Section NonDestruction.
Import MutateRestore.

Lemma vmap_ext {S T : Type} (f g : S → T) (v : value S) :
  (∀ s, f s = g s) → vmap f v = vmap g v.
Proof.
  intros Hfg.
  induction v as [s|raw|p IH|d IH|fields IH|elems IH|entries IH]
    using value_ind'; simpl.
  - by rewrite Hfg.
  - done.
  - destruct p; by rewrite ?IH.
  - destruct d; by rewrite ?IH.
  - f_equal. induction IH as [|[[name exported] x] fs Hx _ IHfs]; simpl;
      [done |]. simpl in Hx. by rewrite Hx, IHfs.
  - f_equal. induction IH as [|x es Hx _ IHes]; simpl; [done |].
    by rewrite Hx, IHes.
  - f_equal. induction IH as [|[k x] es Hx _ IHes]; simpl; [done |].
    simpl in Hx. by rewrite Hx, IHes.
Qed.

(** The mask pass over distinct string variables saves the non-empty ones
    in order and overwrites them; the restore pass over the same list, run
    on any store that agrees with the masked one there, pops exactly what
    was saved and puts every original back. *)
Lemma mask_then_restore (ls : list loc) :
  NoDup ls →
  ∀ (σ : store) (sv : list string),
  ∃ (σ1 : store) (svs : list string),
    scrubLocs true ls {| mem := σ; savedValues := sv |}
    = Ok {| mem := σ1; savedValues := sv ++ svs |} ∧
    (∀ l, l ∉ ls → σ1 l = σ l) ∧
    (∀ l, l ∈ ls → σ1 l = if len (σ l) =? 0 then σ l else "********") ∧
    ∀ (τ : store) (rest : list string),
      (∀ l, l ∈ ls → τ l = σ1 l) →
      ∃ τ' : store,
        scrubLocs false ls {| mem := τ; savedValues := svs ++ rest |}
        = Ok {| mem := τ'; savedValues := rest |} ∧
        (∀ l, l ∈ ls → τ' l = σ l) ∧
        (∀ l, l ∉ ls → τ' l = τ l).
Proof.
  induction 1 as [|l ls Hl Hnd IH]; intros σ sv.
  { exists σ, []. rewrite app_nil_r. repeat split; try done.
    - intros l Hin. by apply elem_of_nil in Hin.
    - intros τ rest _. exists τ. repeat split; try done.
      intros l Hin. by apply elem_of_nil in Hin. }
  destruct (len (σ l) =? 0) eqn:Hempty.
  - (* nothing to mask at [l] *)
    destruct (IH σ sv) as (σ1 & svs & Hmask & Hout & Hin & Hrestore).
    exists σ1, svs. repeat split.
    + cbn [scrubLocs]. unfold scrubLoc. cbn [mem]. rewrite Hempty.
      cbn [negb bind]. apply Hmask.
    + intros l' Hl'. apply not_elem_of_cons in Hl' as [_ Hl'].
      by apply Hout.
    + intros l' Hl'. apply elem_of_cons in Hl' as [-> | Hl'].
      * rewrite Hempty. by apply Hout.
      * by apply Hin.
    + intros τ rest Hτ.
      destruct (Hrestore τ rest) as (τ' & Hr & Hτin & Hτout).
      { intros l' Hl'. apply Hτ. by right. }
      exists τ'. repeat split.
      * cbn [scrubLocs]. unfold scrubLoc. cbn [mem].
        rewrite (Hτ l) by left. rewrite (Hout l Hl), Hempty.
        cbn [negb bind]. apply Hr.
      * intros l' Hl'. apply elem_of_cons in Hl' as [-> | Hl'].
        -- rewrite (Hτout l Hl), (Hτ l) by left. by apply Hout.
        -- by apply Hτin.
      * intros l' Hl'. apply not_elem_of_cons in Hl' as [_ Hl'].
        by apply Hτout.
  - (* [l] is masked and its value saved *)
    destruct (IH (upd σ l "********") (sv ++ [σ l]))
      as (σ1 & svs & Hmask & Hout & Hin & Hrestore).
    assert (Hupd : ∀ (ρ : store) s l', l' ≠ l → upd ρ l s l' = ρ l').
    { intros ρ s l' Hne. unfold upd. by rewrite decide_False. }
    assert (Hupd_eq : ∀ (ρ : store) s, upd ρ l s l = s).
    { intros ρ s. unfold upd. by rewrite decide_True. }
    exists σ1, (σ l :: svs). repeat split.
    + cbn [scrubLocs]. unfold scrubLoc. cbn [mem savedValues].
      rewrite Hempty. cbn [negb bind]. rewrite Hmask.
      by rewrite <- app_assoc.
    + intros l' Hl'. apply not_elem_of_cons in Hl' as [Hne Hl'].
      rewrite (Hout l' Hl'). by apply Hupd.
    + intros l' Hl'. apply elem_of_cons in Hl' as [-> | Hl'].
      * rewrite Hempty, (Hout l Hl). apply Hupd_eq.
      * rewrite (Hin l' Hl'). rewrite Hupd; [done |].
        intros ->. done.
    + intros τ rest Hτ.
      destruct (Hrestore (upd τ l (σ l)) rest) as (τ' & Hr & Hτin & Hτout).
      { intros l' Hl'. rewrite Hupd by (intros ->; done).
        apply Hτ. by right. }
      exists τ'. repeat split.
      * cbn [scrubLocs]. unfold scrubLoc. cbn [mem savedValues].
        rewrite (Hτ l) by left. rewrite (Hout l Hl), Hupd_eq.
        cbn [negb bind app]. apply Hr.
      * intros l' Hl'. apply elem_of_cons in Hl' as [-> | Hl'].
        -- rewrite (Hτout l Hl). apply Hupd_eq.
        -- rewrite (Hτin l' Hl'). apply Hupd. intros ->. done.
      * intros l' Hl'. apply not_elem_of_cons in Hl' as [Hne Hl'].
        rewrite (Hτout l' Hl'). by apply Hupd.
Qed.

Variable ToLower : string → string.
Variable json_Marshal : option (value string) → option string.


End NonDestruction.


(** C1 on the code: with two pointer fields to one string variable, both in
    the set of names, the mask pass saves the original and then the mask
    itself, and the restore pass writes the original back and then the mask
    over it. [Scrub] returns normally and leaves ["********"] where
    ["secret"] was: the target after the call differs from the target
    before it. *)
Theorem aliased_strings_not_restored :
  Examples.aliasedStore 0%nat = "secret" ∧
  MutateRestore.scrubbed ToLower_ascii Examples.aliasedFields
    (Some (VPtr (Some Examples.aliased))) = [0%nat; 0%nat] ∧
  match MutateRestore.Scrub ToLower_ascii Examples.toyMarshal
          (Some (VPtr (Some Examples.aliased))) (Some Examples.aliasedFields)
          Examples.aliasedStore with
  | Ok (out, σ') =>
      out = Examples.toyJSON
              (VStruct [ ("A", true, VString "********");
                         ("B", true, VString "********") ]) ∧
      σ' 0%nat = "********" ∧
      MutateRestore.snapshot σ' Examples.aliased
      = VStruct [ ("A", true, VPtr (Some (VString "********")));
                  ("B", true, VPtr (Some (VString "********"))) ] ∧
      MutateRestore.snapshot Examples.aliasedStore Examples.aliased
      = VStruct [ ("A", true, VPtr (Some (VString "secret")));
                  ("B", true, VPtr (Some (VString "secret"))) ]
  | Panic => False
  end.
Proof. by_computation. Qed.

(** C10: an input that is not a pointer makes the walker return at once, in
    the mask pass and in the restore pass alike; [Scrub] then returns the
    serialisation of the value as it stands in the caller's store, unmasked,
    reports nothing, and leaves the store as it was. *)
Theorem non_pointer_input_not_scrubbed (ToLower : string → string)
    (json_Marshal : option (value string) → option string)
    (input : value MutateRestore.loc)
    (fieldsToScrub : option (gmap string bool)) (σ : MutateRestore.store) :
  isPtr input = false →
  (∀ fields mask fieldName st,
     MutateRestore.scrubInternal ToLower fields mask (Some input) fieldName st
     = Ok st) ∧
  MutateRestore.Scrub ToLower json_Marshal (Some input) fieldsToScrub σ
  = Ok (default "" (json_Marshal (Some (MutateRestore.snapshot σ input))), σ).
Proof.
  intros Hptr. destruct input; try done.
Qed.

Lemma non_pointer_input_not_scrubbed_witness :
  MutateRestore.Scrub ToLower_ascii Examples.toyMarshal (Some Examples.user)
    None Examples.userStore
  = Ok (Examples.toyJSON
          (VStruct [ ("Username", true, VString "Shyam Rathi");
                     ("Password", true, VString "nutanix/4u") ]),
        Examples.userStore).
Proof.
  exact (proj2 (non_pointer_input_not_scrubbed ToLower_ascii
                  Examples.toyMarshal Examples.user None Examples.userStore
                  eq_refl)).
Defined.

(** * Further properties of the masking strategy *)

Lemma append_cons (c : ascii) (a b : string) :
  String c a +:+ b = String c (a +:+ b).
Proof. reflexivity. Qed.

Lemma append_nil_r (s : string) : s +:+ "" = s.
Proof.
  induction s as [|c s IH]; [done |]. by rewrite append_cons, IH.
Qed.

Lemma append_assoc (a b c : string) : (a +:+ b) +:+ c = a +:+ (b +:+ c).
Proof.
  induction a as [|x a IH]; [done |]. by rewrite !append_cons, IH.
Qed.

Lemma repeat_string_add (s : string) (n m : nat) :
  repeat_string s (n + m) = repeat_string s n +:+ repeat_string s m.
Proof.
  induction n as [|n IH]; [done |].
  cbn [Nat.add repeat_string]. by rewrite IH, append_assoc.
Qed.

Lemma keep_front_app (n : nat) (a b : string) :
  String.length a = n → Spec.keep_front n (a +:+ b) = a.
Proof.
  revert a. induction n as [|n IH]; intros [|c a] H; try done.
  rewrite append_cons. cbn [Spec.keep_front]. rewrite IH; [done |].
  simpl in H. lia.
Qed.

Lemma drop_front_app (n : nat) (a b : string) :
  String.length a = n → Spec.drop_front n (a +:+ b) = b.
Proof.
  revert a. induction n as [|n IH]; intros [|c a] H; try done.
  rewrite append_cons. cbn [Spec.drop_front]. apply IH.
  simpl in H. lia.
Qed.

Lemma keep_drop_front (n : nat) (s : string) :
  Spec.keep_front n s +:+ Spec.drop_front n s = s.
Proof.
  revert s. induction n as [|n IH]; intros [|c s]; try done.
  cbn [Spec.keep_front Spec.drop_front]. by rewrite append_cons, IH.
Qed.

Lemma length_repeat_byte (symbol : string) (n : nat) :
  String.length symbol = 1%nat → String.length (repeat_string symbol n) = n.
Proof. intros H. rewrite length_repeat_string, H. lia. Qed.

Lemma nonempty_len (s : string) : s ≠ "" ↔ 0 < len s.
Proof. unfold len. destruct s; simpl; split; (done || lia). Qed.

(** A string that already is a front-visible or a middle-visible mask is
    its own mask. *)
Lemma front_visible_mask_fixed (symbol a : string) (k front : nat) :
  String.length symbol = 1%nat → String.length a = front →
  Spec.front_visible_mask symbol (a +:+ repeat_string symbol k) front
  = a +:+ repeat_string symbol k.
Proof.
  intros Hs <-. unfold Spec.front_visible_mask.
  rewrite keep_front_app by done.
  rewrite length_app_string, length_repeat_byte by done.
  do 2 f_equal. lia.
Qed.

Lemma middle_visible_mask_fixed (symbol a b : string) (k front back : nat) :
  String.length symbol = 1%nat →
  String.length a = front → String.length b = back →
  Spec.middle_visible_mask symbol (a +:+ repeat_string symbol k +:+ b)
    front back
  = a +:+ repeat_string symbol k +:+ b.
Proof.
  intros Hs <- <-. unfold Spec.middle_visible_mask, Spec.keep_back.
  rewrite keep_front_app by done.
  rewrite !length_app_string, length_repeat_byte by done.
  replace (String.length a + (k + String.length b) - String.length b)%nat
    with (String.length (a +:+ repeat_string symbol k))
    by (rewrite length_app_string, length_repeat_byte by done; lia).
  rewrite <- (append_assoc a (repeat_string symbol k) b).
  rewrite drop_front_app by done. rewrite append_assoc.
  do 3 f_equal. lia.
Qed.

Lemma repeat_string_split (symbol : string) (n a : nat) :
  (a ≤ n)%nat →
  repeat_string symbol n
  = repeat_string symbol a +:+ repeat_string symbol (n - a).
Proof.
  intros H. rewrite <- repeat_string_add. f_equal. lia.
Qed.

Section MaskProperties.
Import CloneMutate.
Variable MaskLenVary : bool.
Variable ToLower : string → string.
Variable fieldsToScrub : gmap string (option FieldScrubOptioner).

Lemma resolved_symbol (opts : option FieldScrubOptioner) :
  match opts with
  | Some o =>
      if len (GetMaskingSymbol o) =? 1
      then GetMaskingSymbol o else defaultMaskSymbol
  | None => defaultMaskSymbol
  end = Spec.symbol_of opts.
Proof.
  unfold Spec.symbol_of. destruct opts as [o|]; [|done].
  rewrite len_eqb_1. case_bool_decide; by case_decide.
Qed.

Lemma in_bounds_length (opts : option FieldScrubOptioner) (v1 v2 : string) :
  String.length v2 = String.length v1 →
  Spec.in_bounds opts v1 → Spec.in_bounds opts v2.
Proof.
  intros H. unfold Spec.in_bounds, len. by rewrite H.
Qed.

Lemma length_mask_of (symbol : string) (opts : option FieldScrubOptioner)
    (v : string) :
  String.length symbol = 1%nat → Spec.in_bounds opts v →
  String.length (Spec.mask_of MaskLenVary symbol opts v)
  = match Spec.kind_of opts (len v) with
    | Spec.FullMask => Spec.full_mask_length MaskLenVary v
    | _ => String.length v
    end.
Proof.
  intros Hs. unfold Spec.mask_of, Spec.in_bounds, Spec.full_mask.
  destruct opts as [o|]; [|cbn [Spec.kind_of]; by rewrite length_repeat_byte].
  destruct (Spec.kind_of (Some o) (len v)); intros Hb.
  - by rewrite length_repeat_byte.
  - apply length_front_visible_mask; [done | unfold len in Hb; lia].
  - apply length_middle_visible_mask; [done | unfold len in Hb; lia].
Qed.

Lemma mask_of_nonempty (symbol : string) (opts : option FieldScrubOptioner)
    (v : string) :
  String.length symbol = 1%nat → v ≠ "" → Spec.in_bounds opts v →
  Spec.mask_of MaskLenVary symbol opts v ≠ "".
Proof.
  intros Hs Hne Hb Hm.
  pose proof (length_mask_of symbol opts v Hs Hb) as Hlen.
  rewrite Hm in Hlen. apply nonempty_len in Hne. unfold len in Hne.
  unfold Spec.full_mask_length in Hlen.
  destruct (Spec.kind_of opts (len v)), MaskLenVary; simpl in Hlen; lia.
Qed.

(** A string made of the symbol only is its own mask, when its length
    is the one a full mask would have. *)
Lemma mask_of_repeat (symbol : string) (opts : option FieldScrubOptioner)
    (n : nat) :
  String.length symbol = 1%nat →
  Spec.full_mask_length MaskLenVary (repeat_string symbol n) = n →
  Spec.in_bounds opts (repeat_string symbol n) →
  Spec.mask_of MaskLenVary symbol opts (repeat_string symbol n)
  = repeat_string symbol n.
Proof.
  intros Hs Hfull. unfold Spec.mask_of, Spec.in_bounds, Spec.full_mask.
  rewrite Hfull.
  assert (Hlen : len (repeat_string symbol n) = Z.of_nat n)
    by (unfold len; by rewrite length_repeat_byte).
  destruct opts as [o|]; [|done].
  destruct (Spec.kind_of (Some o) (len (repeat_string symbol n)));
    [done | |]; intros Hb; rewrite Hlen in Hb.
  - set (f := Z.to_nat (PartMaskVisibleFrontLen o)).
    rewrite (repeat_string_split symbol n f) by lia.
    apply front_visible_mask_fixed; [done | by apply length_repeat_byte].
  - set (f := Z.to_nat (PartMaskVisibleFrontLen o)).
    set (b := Z.to_nat (PartMaskVisibleBackLen o)).
    rewrite (repeat_string_split symbol n f) by lia.
    rewrite (repeat_string_split symbol (n - f) (n - f - b)) by lia.
    replace (n - f - (n - f - b))%nat with b by lia.
    apply middle_visible_mask_fixed; [done | |]; by apply length_repeat_byte.
Qed.

(** The mask of a mask is that mask. *)
Lemma mask_of_mask (symbol : string) (opts : option FieldScrubOptioner)
    (v : string) :
  String.length symbol = 1%nat → v ≠ "" → Spec.in_bounds opts v →
  Spec.in_bounds opts (Spec.mask_of MaskLenVary symbol opts v) →
  Spec.mask_of MaskLenVary symbol opts
    (Spec.mask_of MaskLenVary symbol opts v)
  = Spec.mask_of MaskLenVary symbol opts v.
Proof.
  intros Hs Hne Hb Hbm.
  pose proof (length_mask_of symbol opts v Hs Hb) as Hlen.
  assert (Hnofull : ∀ o, opts = Some o →
            Spec.kind_of opts (len v) ≠ Spec.FullMask →
            Spec.kind_of opts
              (len (Spec.mask_of MaskLenVary symbol opts v))
            = Spec.kind_of opts (len v)).
  { intros o -> Hk. unfold len at 1. rewrite Hlen.
    destruct (Spec.kind_of (Some o) (len v)) eqn:E; [done | exact E..]. }
  destruct (Spec.kind_of opts (len v)) eqn:Hk.
  - (* a full mask: the symbol only *)
    assert (Hm : Spec.mask_of MaskLenVary symbol opts v
                 = repeat_string symbol (Spec.full_mask_length MaskLenVary v)).
    { unfold Spec.mask_of. rewrite Hk. by destruct opts. }
    rewrite Hm in *. apply mask_of_repeat; [done | | done].
    unfold Spec.full_mask_length.
    destruct MaskLenVary; [by apply length_repeat_byte | done].
  - destruct opts as [o|]; [|done].
    specialize (Hnofull o eq_refl ltac:(done)).
    unfold Spec.in_bounds in Hb. rewrite Hk in Hb.
    unfold Spec.mask_of at 1. rewrite Hnofull.
    unfold Spec.mask_of. rewrite Hk.
    unfold Spec.front_visible_mask at 2.
    apply front_visible_mask_fixed; [done |].
    apply length_keep_front. unfold len in Hb. lia.
  - destruct opts as [o|]; [|done].
    specialize (Hnofull o eq_refl ltac:(done)).
    unfold Spec.in_bounds in Hb. rewrite Hk in Hb.
    unfold Spec.mask_of at 1. rewrite Hnofull.
    unfold Spec.mask_of. rewrite Hk.
    unfold Spec.middle_visible_mask at 2.
    apply middle_visible_mask_fixed; [done | |].
    + apply length_keep_front. unfold len in Hb. lia.
    + apply length_keep_back. unfold len in Hb. lia.
Qed.

End MaskProperties.
(** X4: a data type other than ["json"] and ["xml"] makes [Scrub] return
    ["null"], whatever the clone, the target and the fields are: nothing
    is encoded, decoded or scrubbed, and the data type is compared as it is
    written (["JSON"] is not ["json"]). *)
Theorem unknown_data_type_returns_null (MaskLenVary : bool)
    (ToLower : string → string) (reflect_IsZero : value string → bool)
    (json_Marshal : option (value string) → option string)
    (json_Unmarshal :
       string → option (value string) → option (option (value string)))
    (xml_MarshalIndent : option (value string) → option string)
    (xml_Unmarshal :
       string → option (value string) → option (option (value string)))
    (cloning target : option (value string))
    (fieldsToScrub : option (gmap string (option CloneMutate.FieldScrubOptioner)))
    (dataType : CloneMutate.DataType) :
  dataType ≠ CloneMutate.JSONScrub → dataType ≠ CloneMutate.XMLScrub →
  CloneMutate.Scrub MaskLenVary ToLower reflect_IsZero json_Marshal
    json_Unmarshal xml_MarshalIndent xml_Unmarshal cloning target
    fieldsToScrub dataType
  = Ok "null".
Proof.
  intros Hj Hx. unfold CloneMutate.Scrub, CloneMutate.cloneTarget.
  rewrite !decide_False by done.
  by destruct (CloneMutate.invalidInput reflect_IsZero cloning target).
Qed.

Lemma unknown_data_type_returns_null_witness :
  CloneMutate.Scrub false ToLower_ascii (λ _, false) Examples.toyMarshal
    (λ _ c, Some c) Examples.toyMarshal (λ _ c, Some c)
    (Some (VPtr (Some (VStruct [("Password", true, VString "")]))))
    (Some (VPtr (Some (VStruct [("Password", true, VString "nutanix/4u")]))))
    None "JSON"
  = Ok "null".
Proof.
  exact (unknown_data_type_returns_null false ToLower_ascii (λ _, false)
           Examples.toyMarshal (λ _ c, Some c) Examples.toyMarshal
           (λ _ c, Some c)
           (Some (VPtr (Some (VStruct [("Password", true, VString "")]))))
           (Some (VPtr (Some (VStruct
                                [("Password", true, VString "nutanix/4u")]))))
           None "JSON" ltac:(by_computation) ltac:(by_computation)).
Defined.

(** X5: with [MaskLenVary] off and no partial masking for the field, every
    non-empty value gets the same mask, eight times the symbol: the mask
    shows neither the content nor the length of the value. *)
Theorem fixed_length_mask_is_constant (ToLower : string → string)
    (fieldsToScrub : gmap string (option CloneMutate.FieldScrubOptioner))
    (fieldName : string) (opts : option CloneMutate.FieldScrubOptioner)
    (v1 v2 : string) (canSet checkCanSet : bool) :
  fieldsToScrub !! ToLower fieldName = Some opts →
  (∀ o, opts = Some o → CloneMutate.PartMaskEnabled o = false) →
  v1 ≠ "" → v2 ≠ "" →
  CloneMutate.doMasking false ToLower (VString v1) canSet fieldName
    fieldsToScrub checkCanSet
  = CloneMutate.doMasking false ToLower (VString v2) canSet fieldName
      fieldsToScrub checkCanSet ∧
  (checkCanSet && negb canSet = false →
   CloneMutate.doMasking false ToLower (VString v1) canSet fieldName
     fieldsToScrub checkCanSet
   = Ok (repeat_string (Spec.symbol_of opts) 8, true)).
Proof.
  intros Hl Hpart Hne1 Hne2.
  assert (Hd : ∀ v, v ≠ "" →
    CloneMutate.doMasking false ToLower (VString v) canSet fieldName
      fieldsToScrub checkCanSet
    = if checkCanSet && negb canSet then Ok ("", false)
      else Ok (repeat_string (Spec.symbol_of opts) 8, true)).
  { intros v Hne. unfold CloneMutate.doMasking. rewrite Hl.
    destruct (checkCanSet && negb canSet); [done |].
    apply nonempty_len in Hne.
    destruct (Z.eqb_spec (len v) 0) as [|_]; [lia |]. cbn [negb].
    rewrite resolved_symbol.
    assert (CloneMutate.applyFullMask (Spec.symbol_of opts)
              (CloneMutate.maskLen false (len v))
            = Ok (repeat_string (Spec.symbol_of opts) 8)) as Hfull.
    { unfold CloneMutate.applyFullMask, CloneMutate.maskLen,
        CloneMutate.defaultMaskLen.
      rewrite Repeat_byte; [done | apply symbol_of_length |].
      unfold int_max. lia. }
    rewrite Hfull. cbn [bind].
    destruct opts as [o|]; [|done].
    by rewrite (Hpart o eq_refl). }
  split.
  - by rewrite !Hd.
  - intros Hc. by rewrite Hd, Hc.
Qed.

Lemma fixed_length_mask_is_constant_witness :
  CloneMutate.doMasking false ToLower_ascii (VString "nutanix/4u") true
    "Password" CloneMutate.defaultToScrub true
  = CloneMutate.doMasking false ToLower_ascii (VString "x") true
      "Password" CloneMutate.defaultToScrub true.
Proof.
  exact (proj1 (fixed_length_mask_is_constant ToLower_ascii
                  CloneMutate.defaultToScrub "Password"
                  (Some CloneMutate.defaultFieldScrubOpts) "nutanix/4u" "x"
                  true true ltac:(by_computation)
                  ltac:(intros o [= <-]; reflexivity)
                  ltac:(by_computation) ltac:(by_computation))).
Defined.

(** X6: the mask of a value depends on the value only through its length
    and the bytes the partial mask leaves visible: two values of the same
    length that agree on those bytes get the same mask. *)
Theorem mask_shows_length_and_visible_parts_only (MaskLenVary : bool)
    (ToLower : string → string)
    (fieldsToScrub : gmap string (option CloneMutate.FieldScrubOptioner))
    (fieldName : string) (opts : option CloneMutate.FieldScrubOptioner)
    (v1 v2 : string) (canSet checkCanSet : bool) :
  fieldsToScrub !! ToLower fieldName = Some opts →
  v1 ≠ "" → len v1 <= int_max → Spec.in_bounds opts v1 →
  String.length v2 = String.length v1 →
  Shape.same_visible opts v1 v2 →
  CloneMutate.doMasking MaskLenVary ToLower (VString v1) canSet fieldName
    fieldsToScrub checkCanSet
  = CloneMutate.doMasking MaskLenVary ToLower (VString v2) canSet fieldName
      fieldsToScrub checkCanSet.
Proof.
  intros Hl Hne Hv Hb Hlen Hvis.
  destruct (checkCanSet && negb canSet) eqn:Hc.
  { unfold CloneMutate.doMasking. by rewrite Hl, Hc. }
  assert (Hlen' : len v2 = len v1) by (unfold len; by rewrite Hlen).
  rewrite !(doMasking_matched MaskLenVary ToLower fieldsToScrub fieldName opts)
    by (done || lia || by eapply in_bounds_length
        || (apply nonempty_len; apply nonempty_len in Hne; lia)).
  do 2 f_equal.
  unfold Spec.mask_of, Shape.same_visible in *. rewrite Hlen'.
  destruct (Spec.kind_of opts (len v1)), opts as [o|];
    unfold Spec.full_mask, Spec.full_mask_length, Spec.front_visible_mask,
      Spec.middle_visible_mask; rewrite ?Hlen; try done.
  - by rewrite Hvis.
  - destruct Hvis as [-> ->]. done.
Qed.

Lemma mask_shows_length_and_visible_parts_only_witness :
  CloneMutate.doMasking true ToLower_ascii (VString "1234567891111111111")
    true "Username" Examples.secretFields true
  = CloneMutate.doMasking true ToLower_ascii (VString "123456abcdefghi1111")
      true "Username" Examples.secretFields true.
Proof.
  exact (mask_shows_length_and_visible_parts_only true ToLower_ascii
           Examples.secretFields "Username" (Some (Examples.partOpts "*"))
           "1234567891111111111" "123456abcdefghi1111" true true
           ltac:(by_computation) ltac:(by_computation) ltac:(by_computation)
           ltac:(by_computation) ltac:(by_computation)
           ltac:(by_computation)).
Defined.

(** X7: masking a value that already is a mask returns it as it is: a
    second scrubbing of a field changes nothing, provided the visible
    lengths lie within the mask as they lie within the value. *)
Theorem masking_a_mask_is_stable (MaskLenVary : bool)
    (ToLower : string → string)
    (fieldsToScrub : gmap string (option CloneMutate.FieldScrubOptioner))
    (fieldName : string) (opts : option CloneMutate.FieldScrubOptioner)
    (v : string) (canSet checkCanSet : bool) :
  fieldsToScrub !! ToLower fieldName = Some opts →
  checkCanSet && negb canSet = false →
  v ≠ "" → len v <= int_max → Spec.in_bounds opts v →
  Spec.in_bounds opts
    (Spec.mask_of MaskLenVary (Spec.symbol_of opts) opts v) →
  ∃ mask,
    CloneMutate.doMasking MaskLenVary ToLower (VString v) canSet fieldName
      fieldsToScrub checkCanSet = Ok (mask, true) ∧
    CloneMutate.doMasking MaskLenVary ToLower (VString mask) canSet fieldName
      fieldsToScrub checkCanSet = Ok (mask, true).
Proof.
  intros Hl Hc Hne Hv Hb Hbm.
  pose proof (symbol_of_length opts) as Hs.
  exists (Spec.mask_of MaskLenVary (Spec.symbol_of opts) opts v).
  split; [by apply doMasking_matched |].
  rewrite (doMasking_matched MaskLenVary ToLower fieldsToScrub fieldName opts);
    try done.
  - by rewrite mask_of_mask.
  - by apply mask_of_nonempty.
  - unfold len. rewrite length_mask_of by done.
    unfold Spec.full_mask_length, len, int_max in *.
    destruct (Spec.kind_of opts _), MaskLenVary; lia.
Qed.

Lemma masking_a_mask_is_stable_witness :
  ∃ mask,
    CloneMutate.doMasking false ToLower_ascii (VString "123456789") true
      "Username" Examples.secretFields true = Ok (mask, true) ∧
    CloneMutate.doMasking false ToLower_ascii (VString mask) true
      "Username" Examples.secretFields true = Ok (mask, true).
Proof.
  exact (masking_a_mask_is_stable false ToLower_ascii Examples.secretFields
           "Username" (Some (Examples.partOpts "*")) "123456789" true true
           ltac:(by_computation) ltac:(by_computation) ltac:(by_computation)
           ltac:(by_computation) ltac:(by_computation)
           ltac:(by_computation)).
Defined.

(** X8: a partial mask hides only what lies between the visible parts.
    When the visible front length is the length of the value (front-visible
    mask), or the visible front and back lengths add up to it
    (middle-visible mask), no symbol is written and the mask returned is
    the value itself. *)
Theorem partial_mask_can_show_everything (MaskLenVary : bool)
    (ToLower : string → string)
    (fieldsToScrub : gmap string (option CloneMutate.FieldScrubOptioner))
    (fieldName : string) (o : CloneMutate.FieldScrubOptioner)
    (v : string) (canSet checkCanSet : bool) :
  fieldsToScrub !! ToLower fieldName = Some (Some o) →
  checkCanSet && negb canSet = false →
  v ≠ "" → len v <= int_max →
  (Spec.kind_of (Some o) (len v) = Spec.FrontVisible ∧
   CloneMutate.PartMaskVisibleFrontLen o = len v) ∨
  (Spec.kind_of (Some o) (len v) = Spec.MiddleVisible ∧
   0 <= CloneMutate.PartMaskVisibleFrontLen o ∧
   0 <= CloneMutate.PartMaskVisibleBackLen o ∧
   CloneMutate.PartMaskVisibleFrontLen o
   + CloneMutate.PartMaskVisibleBackLen o = len v) →
  CloneMutate.doMasking MaskLenVary ToLower (VString v) canSet fieldName
    fieldsToScrub checkCanSet
  = Ok (v, true).
Proof.
  intros Hl Hc Hne Hv Hall.
  pose proof (len_nonneg v) as Hn.
  rewrite (doMasking_matched MaskLenVary ToLower fieldsToScrub fieldName
             (Some o)); try done.
  - do 2 f_equal. unfold Spec.mask_of.
    destruct Hall as [[-> Hf] | (-> & Hf & Hb & Hsum)].
    + unfold Spec.front_visible_mask. rewrite Hf. unfold len.
      rewrite Nat2Z.id, Nat.sub_diag, (keep_front_all _ v) by done.
      apply append_nil_r.
    + unfold Spec.middle_visible_mask, Spec.keep_back.
      replace (String.length v - Z.to_nat (CloneMutate.PartMaskVisibleFrontLen o)
               - Z.to_nat (CloneMutate.PartMaskVisibleBackLen o))%nat
        with 0%nat by (unfold len in *; lia).
      replace (String.length v
               - Z.to_nat (CloneMutate.PartMaskVisibleBackLen o))%nat
        with (Z.to_nat (CloneMutate.PartMaskVisibleFrontLen o))
        by (unfold len in *; lia).
      cbn [repeat_string]. apply keep_drop_front.
  - unfold Spec.in_bounds.
    destruct Hall as [[-> Hf] | (-> & Hf & Hb & Hsum)]; lia.
Qed.

Lemma partial_mask_can_show_everything_witness :
  CloneMutate.doMasking true ToLower_ascii (VString "1234567890") true
    "Username" Examples.tightFields true
  = Ok ("1234567890", true).
Proof.
  exact (partial_mask_can_show_everything true ToLower_ascii
           Examples.tightFields "Username" Examples.tightOpts "1234567890"
           true true ltac:(by_computation) ltac:(by_computation)
           ltac:(by_computation) ltac:(by_computation)
           ltac:(right; by_computation)).
Defined.

(** * The walker of the current generation, loop by loop *)
Section Loops.
Context {A B : Type}.

Lemma mapM_Ok (f : A → res B) (l : list A) (l' : list B) :
  mapM f l = Ok l' → Forall2 (λ x y, f x = Ok y) l l'.
Proof.
  revert l'. induction l as [|x l IH]; intros l' H; simpl in H.
  - injection H as <-. constructor.
  - destruct (f x) as [y|] eqn:Hy; [|done]. simpl in H.
    destruct (mapM f l) as [ys|]; [|done]. simpl in H.
    injection H as <-. constructor; [done | by apply IH].
Qed.

Lemma mapM_total (f : A → res B) (l : list A) :
  Forall (λ x, ∃ y, f x = Ok y) l → ∃ l', mapM f l = Ok l'.
Proof.
  induction 1 as [|x l [y Hy] _ [ys Hys]]; simpl; [by eexists |].
  rewrite Hy, Hys. by eexists.
Qed.

Lemma mapM_ext (f g : A → res B) (l : list A) :
  Forall (λ x, f x = g x) l → mapM f l = mapM g l.
Proof.
  induction 1 as [|x l Hx _ IH]; simpl; [done |]. by rewrite Hx, IH.
Qed.

Lemma mapM_id (f : A → res A) (l : list A) :
  Forall (λ x, f x = Ok x) l → mapM f l = Ok l.
Proof.
  induction 1 as [|x l Hx _ IH]; simpl; [done |]. by rewrite Hx, IH.
Qed.

End Loops.

Lemma Forall2_map_eq {A T : Type} (h : A → T) (l l' : list A) :
  Forall2 (λ x y, h y = h x) l l' → List.map h l' = List.map h l.
Proof. induction 1 as [|x y l l' Hxy _ IH]; simpl; [done |]. by rewrite Hxy, IH. Qed.

Section WalkerLoops.
Import CloneMutate.
Variable MaskLenVary : bool.
Variable ToLower : string → string.
Variable fieldsToScrub : gmap string (option FieldScrubOptioner).

Local Abbreviation kind := (scrubInternal_kind MaskLenVary ToLower fieldsToScrub).
Local Abbreviation entry :=
  (Shape.scrubInternalMap_entry MaskLenVary ToLower fieldsToScrub).

Lemma walk_struct rec (fields : list (string * bool * value string))
    (fieldName : string) :
  kind rec (VStruct fields) fieldName
  = (fields' <- mapM (Shape.scrubInternal_field rec) fields;;
     Ok (VStruct fields')).
Proof.
  cbn [scrubInternal_kind]. f_equal.
  induction fields as [|[[name exported] fValue] fs IH]; [done |].
  cbn [mapM Shape.scrubInternal_field]. rewrite IH.
  destruct (if exported then rec fValue name else Ok fValue); [|done].
  cbn [bind]. by destruct (mapM _ fs).
Qed.

Lemma walk_seq rec (elems : list (value string)) (fieldName : string) :
  kind rec (VSeq elems) fieldName
  = (elems' <- mapM (λ arrValue, rec arrValue fieldName) elems;;
     Ok (VSeq elems')).
Proof.
  reflexivity.
Qed.

(** What the walker does to a value that is neither a struct, a sequence
    nor a map. *)
Lemma walk_leaf rec (targetValue : value string) (fieldName : string) :
  match targetValue with
  | VStruct _ | VSeq _ | VMap _ => False
  | _ => True
  end →
  kind rec targetValue fieldName
  = if decide (fieldName = "") then Ok targetValue
    else
      r <- doMasking MaskLenVary ToLower targetValue true fieldName
             fieldsToScrub true;;
      Ok (if r.2 then VString r.1 else targetValue).
Proof.
  intros H. destruct targetValue; try done; cbn [scrubInternal_kind];
    case_decide; try done;
    by destruct (doMasking _ _ _ _ _ _ _) as [[mask []]|].
Qed.

(** Only a string is ever given a mask. *)
Lemma doMasking_not_string (targetValue : value string) (canSet : bool)
    (fieldName : string) (checkCanSet : bool) :
  match targetValue with VString _ => False | _ => True end →
  doMasking MaskLenVary ToLower targetValue canSet fieldName fieldsToScrub
    checkCanSet
  = Ok ("", false).
Proof.
  intros H. unfold doMasking.
  destruct (fieldsToScrub !! ToLower fieldName); [|done].
  destruct (checkCanSet && negb canSet); [done |].
  by destruct targetValue.
Qed.

Lemma map_elems rec (elems : list (value string)) :
  scrubInternalMap_elems rec elems
  = mapM (Shape.scrubInternalMap_elem rec) elems.
Proof.
  induction elems as [|e es IH]; [done |].
  cbn [scrubInternalMap_elems mapM]. by rewrite IH.
Qed.

Lemma map_keys rec (rest done : list (string * value string)) :
  NoDup ((done ++ rest).*1) →
  scrubInternalMap_keys MaskLenVary ToLower fieldsToScrub rec rest
    (done ++ rest)
  = (rest' <- mapM (entry rec) rest;; Ok (done ++ rest')).
Proof.
  revert done. induction rest as [|[k v] rest IH]; intros done Hnd.
  - simpl. by rewrite app_nil_r.
  - assert (Hk : k ∉ done.*1).
    { rewrite fmap_app, fmap_cons in Hnd.
      apply NoDup_app in Hnd as (_ & Hdisj & _).
      intros Hin. apply (Hdisj k Hin). simpl. left. }
    assert (Hstep : ∀ v',
      NoDup ((done ++ (k, v') :: rest).*1) ∧
      scrubInternalMap_keys MaskLenVary ToLower fieldsToScrub rec rest
        (done ++ (k, v') :: rest)
      = (rest' <- (ys <- mapM (entry rec) rest;; Ok ((k, v') :: ys));;
         Ok (done ++ rest'))).
    { intros v'.
      assert (NoDup ((done ++ (k, v') :: rest).*1)) as Hnd'
        by (rewrite fmap_app, fmap_cons in *; done).
      split; [done |].
      specialize (IH (done ++ [(k, v')])).
      rewrite <- app_assoc in IH. simpl in IH. rewrite IH by done.
      destruct (mapM _ rest); simpl; [|done].
      by rewrite <- app_assoc. }
    cbn [scrubInternalMap_keys mapM Shape.scrubInternalMap_entry].
    destruct v as [| | |d| | |]; cbn [bind]; try apply Hstep.
    destruct d as [x|]; cbn [bind]; [|apply Hstep].
    destruct x; cbn [bind]; try apply Hstep.
    + destruct (doMasking _ _ _ _ _ _ _) as [[mask ok]|]; cbn [bind];
        [|done].
      destruct ok; cbn [fst snd].
      * rewrite SetMapIndex_middle by done. apply Hstep.
      * apply Hstep.
    + destruct (scrubInternalMap_elems rec elems) as [elems'|]; cbn [bind];
        [|done].
      rewrite SetMapIndex_middle by done. apply Hstep.
Qed.

Lemma walk_map (entries : list (string * value string)) :
  NoDup (entries.*1) →
  scrubInternalMap MaskLenVary ToLower fieldsToScrub (VMap entries)
  = (entries' <-
       mapM (entry (scrubInternalMap MaskLenVary ToLower fieldsToScrub))
         entries;;
     Ok (VMap entries')).
Proof.
  intros Hnd. cbn [scrubInternalMap].
  pose proof (map_keys (scrubInternalMap MaskLenVary ToLower fieldsToScrub)
                entries [] Hnd) as Hkeys.
  simpl in Hkeys. rewrite Hkeys. by destruct (mapM _ entries).
Qed.

End WalkerLoops.

(** Induction over the maps [scrubInternalMap] recurses into: those held,
    through an interface or a pointer, by the elements of the sequences
    that the entries of a map hold through an interface. *)
Lemma map_walker_ind (Q : list (string * value string) → Prop) :
  (∀ entries,
     (∀ k elems e inner,
        (k, VIface (Some (VSeq elems))) ∈ entries → e ∈ elems →
        e = VIface (Some (VMap inner)) ∨ e = VPtr (Some (VMap inner)) →
        Q inner) →
     Q entries) →
  ∀ entries, Q entries.
Proof.
  intros Hstep entries.
  pose (Qin := λ e : value string,
          match e with
          | VIface (Some (VMap inner)) | VPtr (Some (VMap inner)) => Q inner
          | _ => True
          end).
  assert (H : ∀ v : value string,
            match v with
            | VMap entries => Q entries
            | VIface (Some (VMap inner)) | VPtr (Some (VMap inner)) => Q inner
            | VIface (Some (VSeq elems)) | VSeq elems => Forall Qin elems
            | _ => True
            end).
  { induction v as [| |p IH|d IH|fields IH|elems IH|ents IH]
      using value_ind'; try done.
    - destruct p as [[]|]; done.
    - destruct d as [[]|]; done.
    - eapply Forall_impl; [exact IH |].
      intros [| |[[]|]|[[]|]| | |]; simpl; done.
    - apply Hstep. intros k elems e inner Hin He Hor.
      rewrite Forall_forall in IH. specialize (IH _ Hin). cbn in IH.
      rewrite Forall_forall in IH. specialize (IH _ He).
      destruct Hor as [-> | ->]; exact IH. }
  exact (H (VMap entries)).
Qed.
Lemma mapM_frame {A T : Type} (g : A → res A) (h : A → T) (l l' : list A) :
  Forall (λ x, ∀ y, g x = Ok y → h y = h x) l →
  mapM g l = Ok l' → List.map h l' = List.map h l.
Proof.
  intros Hall. revert l'.
  induction Hall as [|x l Hx _ IH]; intros l' H; simpl in H.
  - by injection H as <-.
  - destruct (g x) as [y|] eqn:Hy; [|done]. simpl in H.
    destruct (mapM g l) as [ys|]; [|done]. simpl in H.
    injection H as <-. simpl. by rewrite (Hx y), (IH ys).
Qed.

(** * Values a walker is run on *)
Section Representable.
Import Shape.

Lemma representable_map (entries : list (string * value string)) :
  representable (VMap entries) = true →
  NoDup (entries.*1) ∧ ∀ k x, (k, x) ∈ entries → representable x = true.
Proof.
  cbn [representable]. intros H. apply andb_true_iff in H as [Hnd Hall].
  split; [by apply bool_decide_eq_true in Hnd |].
  intros k x Hin. rewrite forallb_forall in Hall.
  exact (Hall (k, x) ltac:(by apply list_elem_of_In)).
Qed.

Lemma representable_seq (elems : list (value string)) (e : value string) :
  representable (VSeq elems) = true → e ∈ elems → representable e = true.
Proof.
  cbn [representable]. intros H Hin. rewrite forallb_forall in H.
  apply H. by apply list_elem_of_In.
Qed.

Lemma representable_struct (fields : list (string * bool * value string))
    (name : string) (exported : bool) (x : value string) :
  representable (VStruct fields) = true → (name, exported, x) ∈ fields →
  representable x = true.
Proof.
  cbn [representable]. intros H Hin. rewrite forallb_forall in H.
  exact (H (name, exported, x) ltac:(by apply list_elem_of_In)).
Qed.

(** The maps the map walker recurses into are representable with the map
    they are in. *)
Lemma representable_inner (entries : list (string * value string))
    (k : string) (elems : list (value string)) (e : value string)
    (inner : list (string * value string)) :
  representable (VMap entries) = true →
  (k, VIface (Some (VSeq elems))) ∈ entries → e ∈ elems →
  e = VIface (Some (VMap inner)) ∨ e = VPtr (Some (VMap inner)) →
  representable (VMap inner) = true.
Proof.
  intros H Hin He Hor. apply representable_map in H as [_ H].
  specialize (H _ _ Hin).
  pose proof (representable_seq elems e H He) as Hinner.
  by destruct Hor as [-> | ->].
Qed.

Lemma boxed_map (entries : list (string * value string)) (k : string)
    (x : value string) :
  boxed (VMap entries) = true → (k, x) ∈ entries →
  boxed x = true ∧
  match x with
  | VIface (Some (VSeq elems)) =>
      ∀ e, e ∈ elems →
           match e with VIface _ | VPtr _ => True | _ => False end
  | _ => True
  end.
Proof.
  cbn [boxed]. intros H Hin. rewrite forallb_forall in H.
  specialize (H (k, x) ltac:(by apply list_elem_of_In)). cbn in H.
  apply andb_true_iff in H as [Hx Hel]. split; [done |].
  destruct x as [| | |[[]|]| | |]; try done.
  intros e He. rewrite forallb_forall in Hel.
  specialize (Hel e ltac:(by apply list_elem_of_In)).
  by destruct e.
Qed.

Lemma boxed_seq (elems : list (value string)) (e : value string) :
  boxed (VSeq elems) = true → e ∈ elems → boxed e = true.
Proof.
  cbn [boxed]. intros H Hin. rewrite forallb_forall in H.
  apply H. by apply list_elem_of_In.
Qed.

Lemma boxed_struct (fields : list (string * bool * value string))
    (name : string) (exported : bool) (x : value string) :
  boxed (VStruct fields) = true → (name, exported, x) ∈ fields →
  boxed x = true.
Proof.
  cbn [boxed]. intros H Hin. rewrite forallb_forall in H.
  exact (H (name, exported, x) ltac:(by apply list_elem_of_In)).
Qed.

Lemma boxed_inner (entries : list (string * value string))
    (k : string) (elems : list (value string)) (e : value string)
    (inner : list (string * value string)) :
  boxed (VMap entries) = true →
  (k, VIface (Some (VSeq elems))) ∈ entries → e ∈ elems →
  e = VIface (Some (VMap inner)) ∨ e = VPtr (Some (VMap inner)) →
  boxed (VMap inner) = true.
Proof.
  intros H Hin He Hor. apply (boxed_map _ _ _ H) in Hin as [Hx _].
  pose proof (boxed_seq elems e Hx He) as Hinner.
  by destruct Hor as [-> | ->].
Qed.

End Representable.

(** * What a run of the walker leaves as it was *)
Section Frame.
Import CloneMutate.
Variable MaskLenVary : bool.
Variable ToLower : string → string.
Variable fieldsToScrub : gmap string (option FieldScrubOptioner).
Context {T : Type} (f : string → T).

(** [f] is an observation of strings that no mask changes. *)
Hypothesis Hf : ∀ s canSet fieldName checkCanSet mask,
  len s <= int_max →
  doMasking MaskLenVary ToLower (VString s) canSet fieldName fieldsToScrub
    checkCanSet = Ok (mask, true) →
  f mask = f s.

Local Abbreviation walk := (scrubInternal_at MaskLenVary ToLower fieldsToScrub).
Local Abbreviation walkMap :=
  (scrubInternalMap MaskLenVary ToLower fieldsToScrub).

Lemma frame_map (entries : list (string * value string)) :
  Shape.representable (VMap entries) = true →
  ∀ r, walkMap (VMap entries) = Ok r → vmap f r = vmap f (VMap entries).
Proof.
  induction entries as [entries IH] using map_walker_ind.
  intros Hrep r Hr.
  pose proof (representable_map entries Hrep) as [Hnd Hall].
  rewrite walk_map in Hr by done.
  destruct (mapM _ entries) as [entries'|] eqn:HM; [|done].
  injection Hr as <-. cbn [vmap]. f_equal.
  eapply mapM_frame; [|exact HM].
  apply Forall_forall. intros [k x] Hin y.
  specialize (Hall k x Hin).
  cbn [Shape.scrubInternalMap_entry].
  destruct x as [| | |[[s| | | | |elems|]|]| | |];
    try (intros [= <-]; done).
  - (* a string *)
    cbn [Shape.representable] in Hall. apply bool_decide_eq_true in Hall.
    destruct (doMasking _ _ _ _ _ _ _) as [[mask ok]|] eqn:Hm; [|done].
    intros [= <-]. destruct ok; cbn [fst snd vmap]; [|done].
    by rewrite (Hf s false k false mask).
  - (* a sequence *)
    rewrite map_elems.
    destruct (mapM _ elems) as [elems'|] eqn:HE; [|done].
    intros [= <-]. cbn [vmap]. do 4 f_equal.
    eapply mapM_frame; [|exact HE].
    apply Forall_forall. intros e He e'.
    assert (Hinner : ∀ inner,
              e = VIface (Some (VMap inner)) ∨ e = VPtr (Some (VMap inner)) →
              ∀ m, walkMap (VMap inner) = Ok m →
                   vmap f m = vmap f (VMap inner)).
    { intros inner Hor. apply (IH k elems e inner Hin He Hor).
      by eapply representable_inner. }
    destruct e as [| |[[]|]|[[]|]| | |]; cbn [Shape.scrubInternalMap_elem];
      try (intros [= <-]; done).
    + destruct (walkMap _) as [m|] eqn:Hm; [|done]. intros [= <-].
      cbn [vmap]. do 2 f_equal. exact (Hinner _ (or_intror eq_refl) m Hm).
    + destruct (walkMap _) as [m|] eqn:Hm; [|done]. intros [= <-].
      cbn [vmap]. do 2 f_equal. exact (Hinner _ (or_introl eq_refl) m Hm).
Qed.

Lemma frame_leaf (targetValue : value string) (fieldName : string) :
  match targetValue with
  | VStruct _ | VSeq _ | VMap _ => False
  | _ => True
  end →
  Shape.representable targetValue = true →
  ∀ r, scrubInternal_kind MaskLenVary ToLower fieldsToScrub walk targetValue
         fieldName = Ok r →
       vmap f r = vmap f targetValue.
Proof.
  intros Hleaf Hrep r. rewrite walk_leaf by done.
  case_decide; [by intros [= <-] |].
  destruct targetValue as [s| | | | | |]; try done;
    try (rewrite doMasking_not_string by done; by intros [= <-]).
  cbn [Shape.representable] in Hrep. apply bool_decide_eq_true in Hrep.
  destruct (doMasking _ _ _ _ _ _ _) as [[mask ok]|] eqn:Hm; [|done].
  intros [= <-]. destruct ok; cbn [fst snd vmap]; [|done].
  by rewrite (Hf s true fieldName true mask).
Qed.

Lemma frame_walk (v : value string) :
  ∀ fieldName r,
    Shape.representable v = true → walk v fieldName = Ok r →
    vmap f r = vmap f v.
Proof.
  induction v as [s|raw|p IH|d IH|fields IH|elems IH|entries IH]
    using value_ind'; intros fieldName r Hrep.
  - by apply frame_leaf.
  - by apply frame_leaf.
  - destruct p as [x|]; [|by apply frame_leaf].
    cbn [scrubInternal_at].
    assert (Hx : ∀ p, scrubInternal_kind MaskLenVary ToLower fieldsToScrub
                        walk x fieldName = Ok p →
                      vmap f p = vmap f x).
    { destruct x as [| |[q|]| | | |];
        try (intros p; by apply frame_leaf);
        intros p; by apply (IH fieldName p). }
    destruct (scrubInternal_kind _ _ _ _ _ _) as [p|]; [|done].
    intros [= <-]. cbn [vmap]. by rewrite (Hx p).
  - by apply frame_leaf.
  - cbn [scrubInternal_at]. rewrite walk_struct.
    destruct (mapM _ fields) as [fields'|] eqn:HM; [|done].
    intros [= <-]. cbn [vmap]. f_equal.
    eapply mapM_frame; [|exact HM].
    apply Forall_forall. intros [[name exported] x] Hin y.
    rewrite Forall_forall in IH. specialize (IH _ Hin). cbn [snd] in IH.
    cbn [Shape.scrubInternal_field].
    destruct exported; [|by intros [= <-]].
    destruct (walk x name) as [x'|] eqn:Hx; [|done]. intros [= <-].
    rewrite (IH name x'); [done | | done].
    by eapply representable_struct.
  - cbn [scrubInternal_at]. rewrite walk_seq.
    destruct (mapM _ elems) as [elems'|] eqn:HM; [|done].
    intros [= <-]. cbn [vmap]. f_equal.
    eapply mapM_frame; [|exact HM].
    apply Forall_forall. intros e Hin e' He.
    rewrite Forall_forall in IH.
    apply (IH e Hin fieldName e'); [|done].
    by eapply representable_seq.
  - by apply frame_map.
Qed.

End Frame.
(** * When a run of the walker returns *)
Section Totality.
Import CloneMutate.
Variable MaskLenVary : bool.
Variable ToLower : string → string.
Variable fieldsToScrub : gmap string (option FieldScrubOptioner).

(** No string makes the masking panic. *)
Hypothesis Hd : ∀ s canSet fieldName checkCanSet,
  len s <= int_max →
  ∃ r, doMasking MaskLenVary ToLower (VString s) canSet fieldName
         fieldsToScrub checkCanSet = Ok r.

Local Abbreviation walk := (scrubInternal_at MaskLenVary ToLower fieldsToScrub).
Local Abbreviation walkMap :=
  (scrubInternalMap MaskLenVary ToLower fieldsToScrub).

Lemma total_map (entries : list (string * value string)) :
  Shape.representable (VMap entries) = true →
  Shape.boxed (VMap entries) = true →
  ∃ r, walkMap (VMap entries) = Ok r.
Proof.
  induction entries as [entries IH] using map_walker_ind.
  intros Hrep Hbox.
  pose proof (representable_map entries Hrep) as [Hnd Hall].
  rewrite walk_map by done.
  destruct (mapM_total
              (Shape.scrubInternalMap_entry MaskLenVary ToLower fieldsToScrub
                 walkMap) entries) as [entries' ->]; [|by eexists].
  apply Forall_forall. intros [k x] Hin.
  specialize (Hall k x Hin).
  pose proof (boxed_map entries k x Hbox Hin) as [_ Hboxed].
  cbn [Shape.scrubInternalMap_entry].
  destruct x as [| | |[[s| | | | |elems|]|]| | |]; try by eexists.
  - cbn [Shape.representable] in Hall. apply bool_decide_eq_true in Hall.
    destruct (Hd s false k false Hall) as [r ->]. by eexists.
  - rewrite map_elems.
    destruct (mapM_total (Shape.scrubInternalMap_elem walkMap) elems)
      as [elems' ->]; [|by eexists].
    apply Forall_forall. intros e He. specialize (Hboxed e He).
    assert (Hinner : ∀ inner,
              e = VIface (Some (VMap inner)) ∨ e = VPtr (Some (VMap inner)) →
              ∃ m, walkMap (VMap inner) = Ok m).
    { intros inner Hor. apply (IH k elems e inner Hin He Hor).
      - by eapply representable_inner.
      - by eapply boxed_inner. }
    destruct e as [| |[[]|]|[[]|]| | |]; cbn [Shape.scrubInternalMap_elem];
      try done; try by eexists.
    + destruct (Hinner _ (or_intror eq_refl)) as [m ->]. by eexists.
    + destruct (Hinner _ (or_introl eq_refl)) as [m ->]. by eexists.
Qed.

Lemma total_leaf (targetValue : value string) (fieldName : string) :
  match targetValue with
  | VStruct _ | VSeq _ | VMap _ => False
  | _ => True
  end →
  Shape.representable targetValue = true →
  ∃ r, scrubInternal_kind MaskLenVary ToLower fieldsToScrub walk targetValue
         fieldName = Ok r.
Proof.
  intros Hleaf Hrep. rewrite walk_leaf by done.
  case_decide; [by eexists |].
  destruct targetValue as [s| | | | | |]; try done;
    try (rewrite doMasking_not_string by done; by eexists).
  cbn [Shape.representable] in Hrep. apply bool_decide_eq_true in Hrep.
  destruct (Hd s true fieldName true Hrep) as [r ->]. by eexists.
Qed.

Lemma total_walk (v : value string) :
  ∀ fieldName,
    Shape.representable v = true → Shape.boxed v = true →
    ∃ r, walk v fieldName = Ok r.
Proof.
  induction v as [s|raw|p IH|d IH|fields IH|elems IH|entries IH]
    using value_ind'; intros fieldName Hrep Hbox.
  - by apply total_leaf.
  - by apply total_leaf.
  - destruct p as [x|]; [|by apply total_leaf].
    cbn [scrubInternal_at].
    assert (Hx : ∃ p, scrubInternal_kind MaskLenVary ToLower fieldsToScrub
                        walk x fieldName = Ok p).
    { destruct x as [| |[q|]| | | |];
        try (by apply total_leaf); by apply (IH fieldName). }
    destruct Hx as [p ->]. by eexists.
  - by apply total_leaf.
  - cbn [scrubInternal_at]. rewrite walk_struct.
    destruct (mapM_total (Shape.scrubInternal_field walk) fields)
      as [fields' ->]; [|by eexists].
    apply Forall_forall. intros [[name exported] x] Hin.
    rewrite Forall_forall in IH. specialize (IH _ Hin). cbn [snd] in IH.
    cbn [Shape.scrubInternal_field].
    destruct exported; [|by eexists].
    destruct (IH name) as [x' ->]; [by eapply representable_struct
                                   | by eapply boxed_struct | by eexists].
  - cbn [scrubInternal_at]. rewrite walk_seq.
    destruct (mapM_total (λ arrValue, walk arrValue fieldName) elems)
      as [elems' ->]; [|by eexists].
    apply Forall_forall. intros e Hin.
    rewrite Forall_forall in IH.
    apply (IH e Hin fieldName);
      [by eapply representable_seq | by eapply boxed_seq].
  - by apply total_map.
Qed.

End Totality.

(** * Two sets of fields that no field name tells apart *)
Section SameFields.
Import CloneMutate.
Variable MaskLenVary : bool.
Variable ToLower : string → string.
Variables fields1 fields2 : gmap string (option FieldScrubOptioner).

Hypothesis Hsame :
  ∀ fieldName, fields1 !! ToLower fieldName = fields2 !! ToLower fieldName.

Lemma same_doMasking (targetValue : value string) (canSet : bool)
    (fieldName : string) (checkCanSet : bool) :
  doMasking MaskLenVary ToLower targetValue canSet fieldName fields1
    checkCanSet
  = doMasking MaskLenVary ToLower targetValue canSet fieldName fields2
      checkCanSet.
Proof. unfold doMasking. by rewrite Hsame. Qed.

Lemma same_keys rec1 rec2 (keys tm : list (string * value string)) :
  (∀ k elems, (k, VIface (Some (VSeq elems))) ∈ keys →
     scrubInternalMap_elems rec1 elems = scrubInternalMap_elems rec2 elems) →
  scrubInternalMap_keys MaskLenVary ToLower fields1 rec1 keys tm
  = scrubInternalMap_keys MaskLenVary ToLower fields2 rec2 keys tm.
Proof.
  revert tm. induction keys as [|[k v] keys IH]; intros tm Hel; [done |].
  assert (Hrest : ∀ tm',
    scrubInternalMap_keys MaskLenVary ToLower fields1 rec1 keys tm'
    = scrubInternalMap_keys MaskLenVary ToLower fields2 rec2 keys tm').
  { intros tm'. apply IH. intros k' elems Hin. apply (Hel k' elems).
    by right. }
  cbn [scrubInternalMap_keys].
  destruct v as [| | |d| | |]; try apply Hrest.
  destruct d as [x|]; cbn [bind]; [|apply Hrest].
  destruct x; cbn [bind]; try apply Hrest.
  - rewrite same_doMasking.
    destruct (doMasking _ _ _ _ _ _ _) as [[mask []]|]; cbn [bind];
      try done; apply Hrest.
  - rewrite (Hel k elems) by left.
    destruct (scrubInternalMap_elems rec2 elems); cbn [bind]; [|done].
    apply Hrest.
Qed.

Lemma same_map (entries : list (string * value string)) :
  scrubInternalMap MaskLenVary ToLower fields1 (VMap entries)
  = scrubInternalMap MaskLenVary ToLower fields2 (VMap entries).
Proof.
  induction entries as [entries IH] using map_walker_ind.
  cbn [scrubInternalMap]. f_equal. apply same_keys.
  intros k elems Hin. rewrite !map_elems. apply mapM_ext.
  apply Forall_forall. intros e He.
  destruct e as [| |[[]|]|[[]|]| | |]; cbn [Shape.scrubInternalMap_elem];
    try done.
  - by rewrite (IH k elems _ _ Hin He (or_intror eq_refl)).
  - by rewrite (IH k elems _ _ Hin He (or_introl eq_refl)).
Qed.

Lemma same_walk (v : value string) (fieldName : string) :
  scrubInternal_at MaskLenVary ToLower fields1 v fieldName
  = scrubInternal_at MaskLenVary ToLower fields2 v fieldName.
Proof.
  revert fieldName.
  induction v as [s|raw|p IH|d IH|fields IH|elems IH|entries IH]
    using value_ind'; intros fieldName;
    try (cbn [scrubInternal_at scrubInternal_kind];
         by rewrite same_doMasking).
  - destruct p as [x|];
      [|cbn [scrubInternal_at scrubInternal_kind]; by rewrite same_doMasking].
    cbn [scrubInternal_at]. f_equal.
    destruct x as [| |[q|]| | | |];
      try (cbn [scrubInternal_kind]; by rewrite same_doMasking);
      apply (IH fieldName).
  - cbn [scrubInternal_at]. rewrite !walk_struct. f_equal.
    apply mapM_ext. apply Forall_forall. intros [[name exported] x] Hin.
    rewrite Forall_forall in IH. specialize (IH _ Hin). cbn [snd] in IH.
    cbn [Shape.scrubInternal_field]. destruct exported; [|done].
    by rewrite IH.
  - cbn [scrubInternal_at]. rewrite !walk_seq. f_equal.
    apply mapM_ext. apply Forall_forall. intros e Hin.
    rewrite Forall_forall in IH. apply (IH e Hin).
  - apply same_map.
Qed.

End SameFields.

Lemma mapM_panic {A B : Type} (f : A → res B) (l : list A) (x : A) :
  x ∈ l → f x = Panic → mapM f l = Panic.
Proof.
  intros Hin Hx. induction l as [|y l IH]; [by apply elem_of_nil in Hin |].
  apply elem_of_cons in Hin as [<- | Hin]; simpl.
  - by rewrite Hx.
  - rewrite (IH Hin). by destruct (f y).
Qed.

Lemma keys_panic (MaskLenVary : bool) (ToLower : string → string)
    (fieldsToScrub : gmap string (option CloneMutate.FieldScrubOptioner))
    rec (keys tm : list (string * value string)) (k : string)
    (elems : list (value string)) :
  (k, VIface (Some (VSeq elems))) ∈ keys →
  CloneMutate.scrubInternalMap_elems rec elems = Panic →
  CloneMutate.scrubInternalMap_keys MaskLenVary ToLower fieldsToScrub rec
    keys tm = Panic.
Proof.
  intros Hin Hel. revert tm.
  induction keys as [|[k0 v0] keys IH]; intros tm;
    [by apply elem_of_nil in Hin |].
  apply elem_of_cons in Hin as [[= <- <-] | Hin];
    cbn [CloneMutate.scrubInternalMap_keys bind].
  - by rewrite Hel.
  - specialize (IH Hin).
    destruct v0 as [| | |[x|]| | |]; cbn [bind]; try apply IH.
    destruct x; cbn [bind]; try apply IH.
    + destruct (CloneMutate.doMasking _ _ _ _ _ _ _) as [[mask []]|];
        cbn [bind]; try done; apply IH.
    + destruct (CloneMutate.scrubInternalMap_elems rec elems0);
        cbn [bind]; [apply IH | done].
Qed.

(** X9: a map that holds, under a dynamically typed entry, a sequence with
    an element that is neither an interface nor a pointer makes the walker
    panic ([arrValue.Elem()]), whatever the fields to scrub are and
    wherever the entry stands in the map. *)
Theorem unboxed_sequence_panics (MaskLenVary : bool)
    (ToLower : string → string)
    (fieldsToScrub : gmap string (option CloneMutate.FieldScrubOptioner))
    (entries : list (string * value string)) (k : string)
    (elems : list (value string)) (e : value string) (fieldName : string) :
  (k, VIface (Some (VSeq elems))) ∈ entries → e ∈ elems →
  match e with VIface _ | VPtr _ => False | _ => True end →
  CloneMutate.scrubInternal_at MaskLenVary ToLower fieldsToScrub
    (VMap entries) fieldName = Panic.
Proof.
  intros Hin He Hbad.
  cbn [CloneMutate.scrubInternal_at CloneMutate.scrubInternal_kind
       CloneMutate.scrubInternalMap].
  rewrite (keys_panic MaskLenVary ToLower fieldsToScrub _ entries entries
             k elems Hin); [done |].
  rewrite map_elems. apply (mapM_panic _ elems e He).
  by destruct e.
Qed.

Lemma unboxed_sequence_panics_witness :
  CloneMutate.scrubInternal_at false ToLower_ascii CloneMutate.defaultToScrub
    (VMap [ ("new", VIface (Some (VString "x")));
            ("old", VIface (Some (VSeq [VIface None; VString "x"]))) ])
    "MapData" = Panic.
Proof.
  exact (unboxed_sequence_panics false ToLower_ascii
           CloneMutate.defaultToScrub
           [ ("new", VIface (Some (VString "x")));
             ("old", VIface (Some (VSeq [VIface None; VString "x"]))) ]
           "old" [VIface None; VString "x"] (VString "x") "MapData"
           ltac:(set_solver) ltac:(set_solver) I).
Defined.

(** X10: a run of the walker that returns changes the contents of strings
    and nothing else: the result has the fields, exported or not, the
    elements, the keys in their order, the pointers and interfaces and all
    the data that is not a string of the value it was run on. *)
Theorem scrubbing_changes_strings_only (MaskLenVary : bool)
    (ToLower : string → string)
    (fieldsToScrub : gmap string (option CloneMutate.FieldScrubOptioner))
    (v r : value string) (fieldName : string) :
  Shape.representable v = true →
  CloneMutate.scrubInternal_at MaskLenVary ToLower fieldsToScrub v fieldName
  = Ok r →
  vmap (λ _, ()) r = vmap (λ _, ()) v.
Proof.
  intros Hrep Hr.
  by apply (frame_walk MaskLenVary ToLower fieldsToScrub (λ _, ())
              ltac:(done) v fieldName r).
Qed.

Lemma scrubbing_changes_strings_only_witness :
  vmap (λ _, ()) Examples.mapDataScrubbed = vmap (λ _, ()) Examples.mapData.
Proof.
  exact (scrubbing_changes_strings_only true ToLower_ascii Examples.mapFields
           Examples.mapData Examples.mapDataScrubbed "MapData"
           ltac:(by_computation) ltac:(by_computation)).
Defined.

Lemma vmap_id {S : Type} (v : value S) : vmap (λ s, s) v = v.
Proof.
  induction v as [s|raw|p IH|d IH|fields IH|elems IH|entries IH]
    using value_ind'; simpl; try done.
  - destruct p; by rewrite ?IH.
  - destruct d; by rewrite ?IH.
  - f_equal. induction IH as [|[[name exported] x] fs Hx _ IHfs]; simpl;
      [done |]. simpl in Hx. by rewrite Hx, IHfs.
  - f_equal. induction IH as [|x es Hx _ IHes]; simpl; [done |].
    by rewrite Hx, IHes.
  - f_equal. induction IH as [|[k x] es Hx _ IHes]; simpl; [done |].
    simpl in Hx. by rewrite Hx, IHes.
Qed.

(** Without partial masking no string makes the masking panic. *)
Lemma doMasking_full_returns (MaskLenVary : bool) (ToLower : string → string)
    (fieldsToScrub : gmap string (option CloneMutate.FieldScrubOptioner))
    (s : string) (canSet : bool) (fieldName : string) (checkCanSet : bool) :
  (∀ k o, fieldsToScrub !! k = Some (Some o) →
          CloneMutate.PartMaskEnabled o = false) →
  len s <= int_max →
  ∃ r, CloneMutate.doMasking MaskLenVary ToLower (VString s) canSet
         fieldName fieldsToScrub checkCanSet = Ok r.
Proof.
  intros Hpart Hs. unfold CloneMutate.doMasking.
  destruct (fieldsToScrub !! ToLower fieldName) as [opts|] eqn:Hl;
    [|by eexists].
  destruct (checkCanSet && negb canSet); [by eexists |].
  destruct (len s =? 0); [by eexists |]. cbn [negb].
  rewrite resolved_symbol.
  assert (∃ mask, CloneMutate.applyFullMask (Spec.symbol_of opts)
                    (CloneMutate.maskLen MaskLenVary (len s)) = Ok mask)
    as [mask ->].
  { unfold CloneMutate.applyFullMask, CloneMutate.maskLen,
      CloneMutate.defaultMaskLen.
    pose proof (len_nonneg s).
    rewrite Repeat_byte; [by eexists | apply symbol_of_length |].
    destruct MaskLenVary; unfold int_max in *; lia. }
  cbn [bind]. destruct opts as [o|]; [|by eexists].
  rewrite (Hpart _ o Hl). by eexists.
Qed.

Section ScrubProperties.
Import CloneMutate.
Variable MaskLenVary : bool.
Variable ToLower : string → string.
Variable reflect_IsZero : value string → bool.
Variable json_Marshal : option (value string) → option string.
Variable json_Unmarshal :
  string → option (value string) → option (option (value string)).
Variable xml_MarshalIndent : option (value string) → option string.
Variable xml_Unmarshal :
  string → option (value string) → option (option (value string)).

Local Abbreviation Scrub :=
  (Scrub MaskLenVary ToLower reflect_IsZero json_Marshal json_Unmarshal
     xml_MarshalIndent xml_Unmarshal).
Local Abbreviation cloneTarget :=
  (cloneTarget json_Marshal json_Unmarshal xml_MarshalIndent xml_Unmarshal).

(** X11: a set of fields that is empty, but not nil, turns the scrubbing
    off: once the target is cloned, [Scrub] returns the encoding of the
    clone as the decoder built it, with nothing masked. *)
Theorem empty_fields_scrub_nothing (cloning target cloned : option (value string))
    (dataType : DataType) :
  invalidInput reflect_IsZero cloning target = false →
  cloneTarget cloning target dataType = inr cloned →
  (∀ x, cloned = Some (VPtr (Some x)) →
        Shape.representable x = true ∧ Shape.boxed x = true) →
  Scrub cloning target (Some ∅) dataType
  = Ok (if decide (dataType = JSONScrub)
        then default "null" (json_Marshal cloned)
        else default "" (xml_MarshalIndent cloned)).
Proof.
  intros Hvalid Hclone Hshape. unfold CloneMutate.Scrub.
  rewrite Hvalid, Hclone. cbv zeta. cbn [from_option id].
  assert (Hnone : ∀ s canSet fieldName checkCanSet,
    doMasking MaskLenVary ToLower (VString s) canSet fieldName ∅ checkCanSet
    = Ok ("", false)).
  { intros. unfold doMasking. by rewrite lookup_empty. }
  assert (Hwalk : scrubInternal MaskLenVary ToLower ∅ cloned "" = Ok cloned).
  { unfold scrubInternal.
    destruct cloned as [[| |[x|]| | | |]|]; try done.
    destruct (Hshape x eq_refl) as [Hrep Hbox].
    destruct (total_walk MaskLenVary ToLower ∅
                ltac:(intros; rewrite Hnone; by eexists) x "" Hrep Hbox)
      as [r Hr].
    rewrite Hr. cbn [bind]. do 4 f_equal.
    rewrite <- (vmap_id r), <- (vmap_id x).
    apply (frame_walk MaskLenVary ToLower ∅ (λ s, s)
             ltac:(intros ????? _; by rewrite Hnone) x "" r Hrep Hr). }
  rewrite Hwalk. cbn [bind].
  unfold CloneMutate.cloneTarget in Hclone.
  repeat case_decide; try done.
  - by destruct (json_Marshal cloned).
  - by destruct (xml_MarshalIndent cloned).
Qed.


(** X13: the fields to scrub are looked up under the lower-case form of
    the field name, so a key that is not its own lower-case form is never
    found: [Scrub] returns what it returns without that key. *)
Theorem keys_must_be_lower_case (cloning target : option (value string))
    (fields : gmap string (option FieldScrubOptioner)) (key : string)
    (dataType : DataType) :
  (∀ x, ToLower (ToLower x) = ToLower x) → ToLower key ≠ key →
  Scrub cloning target (Some fields) dataType
  = Scrub cloning target (Some (delete key fields)) dataType.
Proof.
  intros Hidem Hkey. unfold CloneMutate.Scrub.
  destruct (invalidInput reflect_IsZero cloning target); [done |].
  destruct (cloneTarget cloning target dataType) as [early|cloned];
    [done |].
  cbv zeta. cbn [from_option id]. f_equal. unfold scrubInternal.
  destruct cloned as [[| |[x|]| | | |]|]; try done.
  f_equal. apply same_walk. intros fieldName.
  rewrite lookup_delete_ne; [done |].
  intros ->. apply Hkey. apply Hidem.
Qed.

End ScrubProperties.

Lemma empty_fields_scrub_nothing_witness :
  CloneMutate.Scrub false ToLower_ascii (λ _, false) Examples.toyMarshal
    Examples.toyUnmarshal Examples.toyMarshal Examples.toyUnmarshal
    (Some (VPtr (Some Examples.userEmpty)))
    (Some (VPtr (Some Examples.userValue))) (Some ∅) CloneMutate.JSONScrub
  = Ok (Examples.toyJSON Examples.userValue).
Proof.
  exact (empty_fields_scrub_nothing false ToLower_ascii (λ _, false)
           Examples.toyMarshal Examples.toyUnmarshal Examples.toyMarshal
           Examples.toyUnmarshal
           (Some (VPtr (Some Examples.userEmpty)))
           (Some (VPtr (Some Examples.userValue)))
           (Some (VPtr (Some Examples.userValue))) CloneMutate.JSONScrub
           eq_refl eq_refl
           ltac:(intros x [= <-]; by_computation)).
Defined.


Lemma lower_byte_idem (c : ascii) : lower_byte (lower_byte c) = lower_byte c.
Proof. destruct c as [[] [] [] [] [] [] [] []]; reflexivity. Qed.

Lemma ToLower_ascii_idem (s : string) :
  ToLower_ascii (ToLower_ascii s) = ToLower_ascii s.
Proof.
  induction s as [|c s IH]; simpl; [done |].
  by rewrite lower_byte_idem, IH.
Qed.

Lemma keys_must_be_lower_case_witness :
  CloneMutate.Scrub false ToLower_ascii (λ _, false) Examples.toyMarshal
    Examples.toyUnmarshal Examples.toyMarshal Examples.toyUnmarshal
    (Some (VPtr (Some Examples.userEmpty)))
    (Some (VPtr (Some Examples.userValue))) (Some Examples.capitalFields)
    CloneMutate.JSONScrub
  = CloneMutate.Scrub false ToLower_ascii (λ _, false) Examples.toyMarshal
      Examples.toyUnmarshal Examples.toyMarshal Examples.toyUnmarshal
      (Some (VPtr (Some Examples.userEmpty)))
      (Some (VPtr (Some Examples.userValue)))
      (Some (delete "Password" Examples.capitalFields))
      CloneMutate.JSONScrub.
Proof.
  exact (keys_must_be_lower_case false ToLower_ascii (λ _, false)
           Examples.toyMarshal Examples.toyUnmarshal Examples.toyMarshal
           Examples.toyUnmarshal
           (Some (VPtr (Some Examples.userEmpty)))
           (Some (VPtr (Some Examples.userValue)))
           Examples.capitalFields "Password" CloneMutate.JSONScrub
           ToLower_ascii_idem ltac:(by_computation)).
Defined.

(** * Mutate and restore, with or without aliases *)
Section MutateRestoreTotal.
Import MutateRestore.

Lemma upd_same (σ : store) (l : loc) (s : string) : upd σ l s l = s.
Proof. unfold upd. by rewrite decide_True. Qed.

Lemma upd_other (σ : store) (l l' : loc) (s : string) :
  l' ≠ l → upd σ l s l' = σ l'.
Proof. intros H. unfold upd. by rewrite decide_False. Qed.

Lemma len_eqb_0 (s : string) : (len s =? 0) = true ↔ s = "".
Proof.
  unfold len. destruct s; simpl; by split.
Qed.

(** The mask pass over any list of string variables, repeated or not: every
    variable of the list that is not empty ends up holding the mask, and as
    many values are saved as the list has occurrences of such variables,
    none of them empty. *)
Lemma mask_pass (ls : list loc) :
  ∀ (σ : store) (sv : list string),
  ∃ (σ1 : store) (svs : list string),
    scrubLocs true ls {| mem := σ; savedValues := sv |}
    = Ok {| mem := σ1; savedValues := sv ++ svs |} ∧
    (∀ l, σ1 l = if decide (l ∈ ls)
                 then (if len (σ l) =? 0 then σ l else "********")
                 else σ l) ∧
    length svs = length (List.filter (λ l, negb (len (σ l) =? 0)) ls) ∧
    Forall (λ s, (len s =? 0) = false) svs.
Proof.
  induction ls as [|l ls IH]; intros σ sv.
  { exists σ, []. rewrite app_nil_r. by repeat split. }
  destruct (len (σ l) =? 0) eqn:Hempty.
  - destruct (IH σ sv) as (σ1 & svs & Hrun & Hσ1 & Hlen & Hne).
    exists σ1, svs. repeat split; try done.
    + cbn [scrubLocs]. unfold scrubLoc. cbn [mem]. rewrite Hempty.
      cbn [negb bind]. apply Hrun.
    + intros l'. rewrite Hσ1. destruct (decide (l' = l)) as [-> | Hl'].
      * rewrite Hempty. rewrite (decide_True (P := l ∈ l :: ls)) by left.
        by case_decide.
      * destruct (decide (l' ∈ ls)).
        -- by rewrite (decide_True (P := l' ∈ l :: ls)) by (by right).
        -- rewrite (decide_False (P := l' ∈ l :: ls)); [done |].
           by apply not_elem_of_cons.
    + cbn [List.filter]. by rewrite Hempty.
  - destruct (IH (upd σ l "********") (sv ++ [σ l]))
      as (σ1 & svs & Hrun & Hσ1 & Hlen & Hne).
    exists σ1, (σ l :: svs). repeat split.
    + cbn [scrubLocs]. unfold scrubLoc. cbn [mem savedValues].
      rewrite Hempty. cbn [negb bind]. rewrite Hrun.
      by rewrite <- app_assoc.
    + intros l'. rewrite Hσ1. destruct (decide (l' = l)) as [-> | Hl'].
      * rewrite upd_same, Hempty.
        rewrite (decide_True (P := l ∈ l :: ls)) by left.
        by case_decide.
      * rewrite upd_other by done. destruct (decide (l' ∈ ls)).
        -- by rewrite (decide_True (P := l' ∈ l :: ls)) by (by right).
        -- rewrite (decide_False (P := l' ∈ l :: ls)); [done |].
           by apply not_elem_of_cons.
    + cbn [List.filter length]. rewrite Hempty. cbn [negb length].
      rewrite Hlen. f_equal. f_equal. apply filter_ext. intros l'.
      destruct (decide (l' = l)) as [-> | Hl'].
      * by rewrite upd_same, Hempty.
      * by rewrite upd_other.
    + by constructor.
Qed.

(** The restore pass over the same list finds a saved value for every
    occurrence of a variable that is not empty: it never runs out of
    them. *)
Lemma restore_pass (ls : list loc) :
  ∀ (τ : store) (svs rest : list string),
    Forall (λ s, (len s =? 0) = false) svs →
    length svs = length (List.filter (λ l, negb (len (τ l) =? 0)) ls) →
    ∃ τ' : store,
      scrubLocs false ls {| mem := τ; savedValues := svs ++ rest |}
      = Ok {| mem := τ'; savedValues := rest |} ∧
      (∀ l, l ∉ ls → τ' l = τ l) ∧
      (∀ l, (len (τ' l) =? 0) = (len (τ l) =? 0)).
Proof.
  induction ls as [|l ls IH]; intros τ svs rest Hne Hlen.
  { destruct svs; [|done]. by exists τ. }
  cbn [List.filter] in Hlen.
  destruct (len (τ l) =? 0) eqn:Hempty; cbn [negb] in Hlen.
  - destruct (IH τ svs rest Hne Hlen) as (τ' & Hrun & Hout & Hsame).
    exists τ'. repeat split; try done.
    + cbn [scrubLocs]. unfold scrubLoc. cbn [mem]. rewrite Hempty.
      cbn [negb bind]. apply Hrun.
    + intros l' Hl'. apply not_elem_of_cons in Hl' as [_ Hl'].
      by apply Hout.
  - destruct svs as [|s0 svs]; [done |].
    apply Forall_cons in Hne as [Hs0 Hne].
    assert (Hsame0 : ∀ l', (len (upd τ l s0 l') =? 0) = (len (τ l') =? 0)).
    { intros l'. destruct (decide (l' = l)) as [-> | Hl'].
      - by rewrite upd_same, Hs0, Hempty.
      - by rewrite upd_other. }
    destruct (IH (upd τ l s0) svs rest Hne) as (τ' & Hrun & Hout & Hsame).
    { cbn [length] in Hlen. injection Hlen as Hlen. rewrite Hlen.
      f_equal. apply filter_ext. intros l'. by rewrite Hsame0. }
    exists τ'. repeat split.
    + cbn [scrubLocs]. unfold scrubLoc. cbn [mem savedValues].
      rewrite Hempty. cbn [negb bind app]. apply Hrun.
    + intros l' Hl'. apply not_elem_of_cons in Hl' as [Hne' Hl'].
      rewrite (Hout l' Hl'). by apply upd_other.
    + intros l'. by rewrite Hsame, Hsame0.
Qed.

Variable ToLower : string → string.
Variable json_Marshal : option (value string) → option string.


(** Two sets of names with the same names, whatever they are bound to. *)
Variables fields1 fields2 : gmap string bool.
Hypothesis Hdom : dom fields1 = dom fields2.

Lemma same_names_leaf (targetValue : value loc) (fieldName : string) :
  leaf_locs ToLower fields1 targetValue fieldName
  = leaf_locs ToLower fields2 targetValue fieldName.
Proof.
  unfold leaf_locs. case_decide; [done |].
  assert (is_Some (fields1 !! ToLower fieldName)
          ↔ is_Some (fields2 !! ToLower fieldName)) as Hsome
    by (by rewrite <- !elem_of_dom, Hdom).
  destruct (fields1 !! ToLower fieldName) as [b1|],
    (fields2 !! ToLower fieldName) as [b2|]; try done.
  - destruct Hsome as [Hsome _]. by destruct (Hsome ltac:(by eexists)).
  - destruct Hsome as [_ Hsome]. by destruct (Hsome ltac:(by eexists)).
Qed.

Lemma same_names_visited (v : value loc) (fieldName : string) :
  visited ToLower fields1 v fieldName = visited ToLower fields2 v fieldName.
Proof.
  revert fieldName.
  induction v as [l|raw|p IH|d IH|fields IH|elems IH|entries IH]
    using value_ind'; intros fieldName; try apply same_names_leaf.
  - destruct p as [x|]; [|apply same_names_leaf].
    cbn [visited].
    destruct x as [| |[q|]| | | |]; try apply same_names_leaf;
      apply (IH fieldName).
  - cbn [visited kind_locs].
    induction IH as [|[[name exported] x] fs Hx _ IHfs]; [done |].
    cbn [flat_map]. cbn [snd] in Hx. rewrite IHfs.
    destruct exported; [by rewrite Hx | done].
  - cbn [visited kind_locs].
    induction IH as [|x es Hx _ IHes]; [done |].
    cbn [flat_map]. by rewrite Hx, IHes.
Qed.

(** X3: only the names of the set of fields count, not the booleans they
    are bound to: two sets with the same names give the same result, so a
    name bound to [false] is scrubbed as one bound to [true]. *)
Theorem fields_values_are_ignored (input : option (value loc)) (σ : store) :
  Scrub ToLower json_Marshal input (Some fields1) σ
  = Scrub ToLower json_Marshal input (Some fields2) σ.
Proof.
  unfold Scrub. destruct input as [[| |[targetValue|]| | | |]|]; try done.
  cbn [default scrubInternal].
  rewrite !scrubInternal_at_locs, same_names_visited.
  destruct (scrubLocs true _ _) as [st1|]; [|done]. cbn [bind].
  by rewrite !scrubInternal_at_locs, same_names_visited.
Qed.

End MutateRestoreTotal.

Lemma fields_values_are_ignored_witness :
  MutateRestore.Scrub ToLower_ascii Examples.toyMarshal
    (Some (VPtr (Some Examples.user))) (Some {[ "password" := true ]})
    Examples.userStore
  = MutateRestore.Scrub ToLower_ascii Examples.toyMarshal
      (Some (VPtr (Some Examples.user))) (Some {[ "password" := false ]})
      Examples.userStore.
Proof.
  exact (fields_values_are_ignored ToLower_ascii Examples.toyMarshal
           {[ "password" := true ]} {[ "password" := false ]}
           ltac:(by rewrite !dom_singleton_L)
           (Some (VPtr (Some Examples.user))) Examples.userStore).
Defined.

(** * The second generation *)
Section SymbolMap.
Import CloneMutateSymbolMap.
Variable MaskLenVary : bool.
Variable DefaultMaskLen : Z.
Variable ToLower : string → string.
Variable fieldsToScrub : gmap string (gmap string string).

Lemma Repeat_Ok (symbol : string) (count : Z) :
  0 <= count → len symbol * count <= int_max →
  Repeat symbol count = Ok (repeat_string symbol (Z.to_nat count)).
Proof.
  intros H0 H1. unfold Repeat.
  destruct (Z.ltb_spec count 0); [lia |].
  destruct (Z.ltb_spec int_max (len symbol * count)); [lia | done].
Qed.

(** X15: the strings of a slice or array field are scrubbed under the name
    of the field: every element that is not empty becomes the symbol of the
    field, whatever its length, repeated as many times as the element has
    bytes ([MaskLenVary]) or [DefaultMaskLen] times, and the empty
    elements stay empty. *)
Theorem slice_elements_take_the_field_name (fieldName : string)
    (opts : gmap string string) (values : list string) :
  fieldName ≠ "" →
  fieldsToScrub !! ToLower fieldName = Some opts →
  let symbol := default "*" (opts !! "symbol") in
  let count := λ s, if MaskLenVary then len s else DefaultMaskLen in
  Forall (λ s, s ≠ "" → 0 <= count s ∧ len symbol * count s <= int_max)
    values →
  scrubInternal_at MaskLenVary DefaultMaskLen ToLower fieldsToScrub
    (VStruct [(fieldName, true, VSeq (VString <$> values))]) ""
  = Ok (VStruct
          [(fieldName, true,
            VSeq ((λ s, VString (if decide (s = "") then ""
                                 else repeat_string symbol
                                        (Z.to_nat (count s))))
                  <$> values))]).
Proof.
  intros Hname Hl symbol count Hall.
  cbn [scrubInternal_at scrubInternal_kind bind].
  match goal with
  | |- context [bind ?loop _] =>
      assert (loop
              = Ok ((λ s, VString (if decide (s = "") then ""
                                   else repeat_string symbol
                                          (Z.to_nat (count s))))
                    <$> values)) as ->
  end; [|done].
  induction Hall as [|s ss Hs _ IH]; [done |].
  cbn [fmap list_fmap]. rewrite IH.
  cbn [scrubInternal_at scrubInternal_kind]. unfold scrubLeaf.
  rewrite decide_False, Hl by done.
  case_decide as Hempty.
  - subst s. done.
  - apply nonempty_len in Hempty as Hlen.
    destruct (Z.eqb_spec (len s) 0); [lia |]. cbn [negb].
    destruct (Hs Hempty) as [H0 H1].
    change (match opts !! "symbol" with Some v => v | None => "*" end)
      with symbol.
    assert ((if MaskLenVary then Repeat symbol (len s)
             else Repeat symbol DefaultMaskLen)
            = Repeat symbol (count s)) as -> by (unfold count; by destruct MaskLenVary).
    by rewrite Repeat_Ok.
Qed.

End SymbolMap.

Lemma slice_elements_take_the_field_name_witness :
  CloneMutateSymbolMap.scrubInternal_at true 8 ToLower_ascii
    Examples.symbolFields
    (VStruct [("Keys", true, VSeq (VString <$> ["key_1"; ""; "key_3"]))]) ""
  = Ok (VStruct [("Keys", true,
                  VSeq [VString "....."; VString ""; VString "....."])]).
Proof.
  exact (slice_elements_take_the_field_name true 8 ToLower_ascii
           Examples.symbolFields "Keys" {[ "symbol" := "." ]}
           ["key_1"; ""; "key_3"] ltac:(by_computation)
           ltac:(by_computation)
           ltac:(repeat (apply List.Forall_cons; [intros _; by_computation |]);
                 apply List.Forall_nil)).
Defined.

Section SymbolMapScrub.
Import CloneMutateSymbolMap.
Variable MaskLenVary : bool.
Variable DefaultMaskLen : Z.
Variable ToLower : string → string.
Variable reflect_IsZero : value string → bool.
Variable json_Marshal : option (value string) → option string.
Variable json_Unmarshal :
  string → option (value string) → option (option (value string)).
Variable xml_MarshalIndent : option (value string) → option string.
Variable xml_Unmarshal :
  string → option (value string) → option (option (value string)).

Local Abbreviation Scrub :=
  (Scrub MaskLenVary DefaultMaskLen ToLower reflect_IsZero json_Marshal
     json_Unmarshal xml_MarshalIndent xml_Unmarshal).

(** X16: once the target is cloned, a call with a nil [fieldsToScrub]
    assigns ["*"] to [DefaultToScrub["password"]["symbol"]]. It panics when
    the default map is nil or holds no inner map under ["password"];
    otherwise it is the call with the rewritten default map passed as
    [fieldsToScrub], and it leaves the package variable rewritten, whatever
    symbol had been set there. A call with a [fieldsToScrub] that is not nil
    leaves the package variable as it was. *)
Theorem nil_fields_rewrite_the_default
    (cloning target cloned : option (value string)) (dataType : DataType)
    (DefaultToScrub : option fields) :
  invalidInput reflect_IsZero cloning target = false →
  cloneTarget json_Marshal json_Unmarshal xml_MarshalIndent xml_Unmarshal
    cloning target dataType = inr cloned →
  ((∀ d inner, DefaultToScrub = Some d →
               d !! "password" ≠ Some (Some inner)) →
   Scrub cloning target None dataType DefaultToScrub = Panic) ∧
  (∀ d inner,
     DefaultToScrub = Some d → d !! "password" = Some (Some inner) →
     let d' := <["password" := Some (<["symbol" := "*"]> inner)]> d in
     Scrub cloning target None dataType DefaultToScrub
     = match Scrub cloning target (Some d') dataType DefaultToScrub with
       | Ok (out, _) => Ok (out, Some d')
       | Panic => Panic
       end) ∧
  (∀ f out DefaultToScrub',
     Scrub cloning target (Some f) dataType DefaultToScrub
     = Ok (out, DefaultToScrub') →
     DefaultToScrub' = DefaultToScrub).
Proof.
  intros Hvalid Hclone. unfold CloneMutateSymbolMap.Scrub.
  rewrite Hvalid, Hclone. repeat split.
  - intros Hnone. destruct DefaultToScrub as [d|]; [|done].
    destruct (d !! "password") as [[inner|]|] eqn:Hl; try done.
    by destruct (Hnone d inner eq_refl).
  - intros d inner -> Hl. rewrite Hl. cbn [bind].
    destruct (scrubInternal _ _ _ _ _ _) as [scrubbed|]; [|done].
    cbn [bind]. by repeat case_decide.
  - intros f out DefaultToScrub'. cbn [bind].
    destruct (scrubInternal _ _ _ _ _ _) as [scrubbed|]; [|done].
    cbn [bind]. repeat case_decide; by intros [= _ <-].
Qed.

End SymbolMapScrub.

Lemma nil_fields_rewrite_the_default_witness :
  CloneMutateSymbolMap.Scrub false 8 ToLower_ascii (λ _, false)
    Examples.toyMarshal Examples.toyUnmarshal Examples.toyMarshal
    Examples.toyUnmarshal
    (Some (VPtr (Some Examples.userEmpty)))
    (Some (VPtr (Some Examples.userValue))) None
    CloneMutateSymbolMap.JSONScrub (Some ∅)
  = Panic.
Proof.
  exact (proj1 (nil_fields_rewrite_the_default false 8 ToLower_ascii
                  (λ _, false) Examples.toyMarshal Examples.toyUnmarshal
                  Examples.toyMarshal Examples.toyUnmarshal
                  (Some (VPtr (Some Examples.userEmpty)))
                  (Some (VPtr (Some Examples.userValue)))
                  (Some (VPtr (Some Examples.userValue)))
                  CloneMutateSymbolMap.JSONScrub (Some ∅)
                  eq_refl eq_refl)
           ltac:(intros d inner [= <-]; by_computation)).
Defined.

(** * The second generation and the current one *)
Section Generations.
Variable MaskLenVary : bool.
Variable ToLower : string → string.
Variable fields : gmap string (gmap string string).

(** Every symbol of the set is one byte long. *)
Hypothesis Hbyte : ∀ k opts symbol,
  fields !! k = Some opts → opts !! "symbol" = Some symbol →
  String.length symbol = 1%nat.

Local Abbreviation old :=
  (CloneMutateSymbolMap.scrubInternal_at MaskLenVary CloneMutate.defaultMaskLen
     ToLower fields).
Local Abbreviation new :=
  (CloneMutate.scrubInternal_at MaskLenVary ToLower (Shape.upgrade fields)).

Lemma generations_agree_leaf (targetValue : value string)
    (fieldName : string) :
  match targetValue with
  | VStruct _ | VSeq _ | VMap _ => False
  | _ => True
  end →
  CloneMutateSymbolMap.scrubLeaf MaskLenVary CloneMutate.defaultMaskLen
    ToLower fields targetValue fieldName
  = CloneMutate.scrubInternal_kind MaskLenVary ToLower (Shape.upgrade fields)
      new targetValue fieldName.
Proof.
  intros Hleaf. rewrite walk_leaf by done.
  unfold CloneMutateSymbolMap.scrubLeaf. case_decide; [done |].
  destruct targetValue as [s| | | | | |]; try done;
    try (rewrite doMasking_not_string by done;
         by destruct (fields !! ToLower fieldName)).
  unfold CloneMutate.doMasking, Shape.upgrade. rewrite lookup_fmap.
  destruct (fields !! ToLower fieldName) as [opts|] eqn:Hl; [|done].
  cbn [fmap option_fmap option_map andb negb].
  destruct (len s =? 0); [done |]. cbn [negb].
  cbn [ScrubTest.optioner ScrubTest.newFieldScrubOpts
       ScrubTest.maskingSymbol ScrubTest.partScrubConf
       CloneMutate.GetMaskingSymbol CloneMutate.PartMaskEnabled].
  assert ((len (default "*" (opts !! "symbol")) =? 1) = true) as ->.
  { rewrite len_eqb_1. apply bool_decide_eq_true.
    destruct (opts !! "symbol") as [symbol|] eqn:Hsym; [|done].
    by apply (Hbyte (ToLower fieldName) opts). }
  unfold CloneMutate.applyFullMask, CloneMutate.maskLen.
  change (match opts !! "symbol" with Some v => v | None => "*" end)
    with (default "*" (opts !! "symbol")).
  destruct MaskLenVary; by destruct (Repeat _ _).
Qed.

(** X17: on a value that holds no map, the walker of the second
    generation, with the default mask length 8 and symbols of one byte, does
    what the walker of the current generation does with the options
    [newFieldScrubOpts(symbol, nil)] under the same names. *)
Theorem generations_agree_without_maps (v : value string)
    (fieldName : string) :
  Shape.no_maps v = true → old v fieldName = new v fieldName.
Proof.
  revert fieldName.
  induction v as [s|raw|p IH|d IH|fs IH|elems IH|entries IH]
    using value_ind'; intros fieldName Hmaps; try done;
    try (by apply generations_agree_leaf).
  - destruct p as [x|]; [|by apply generations_agree_leaf].
    cbn [CloneMutateSymbolMap.scrubInternal_at CloneMutate.scrubInternal_at].
    f_equal. cbn [Shape.no_maps] in Hmaps.
    destruct x as [| |[q|]| | | |]; try done;
      try (by apply generations_agree_leaf); by apply (IH fieldName).
  - cbn [CloneMutateSymbolMap.scrubInternal_at CloneMutate.scrubInternal_at
         CloneMutateSymbolMap.scrubInternal_kind
         CloneMutate.scrubInternal_kind].
    f_equal. cbn [Shape.no_maps] in Hmaps.
    induction IH as [|[[name exported] x] fs Hx _ IHfs]; [done |].
    cbn [forallb] in Hmaps. apply andb_true_iff in Hmaps as [Hm Hms].
    cbn [snd] in Hx. rewrite (IHfs Hms).
    destruct exported; [by rewrite (Hx name Hm) | done].
  - cbn [CloneMutateSymbolMap.scrubInternal_at CloneMutate.scrubInternal_at
         CloneMutateSymbolMap.scrubInternal_kind
         CloneMutate.scrubInternal_kind].
    f_equal. cbn [Shape.no_maps] in Hmaps.
    induction IH as [|x es Hx _ IHes]; [done |].
    cbn [forallb] in Hmaps. apply andb_true_iff in Hmaps as [Hm Hms].
    by rewrite (IHes Hms), (Hx fieldName Hm).
Qed.

End Generations.

Lemma generations_agree_without_maps_witness :
  CloneMutateSymbolMap.scrubInternal_at true 8 ToLower_ascii
    Examples.symbolFields
    (VStruct [("Keys", true, VSeq [VString "key_1"; VString "key_2"])]) ""
  = CloneMutate.scrubInternal_at true ToLower_ascii
      (Shape.upgrade Examples.symbolFields)
      (VStruct [("Keys", true, VSeq [VString "key_1"; VString "key_2"])]) "".
Proof.
  exact (generations_agree_without_maps true ToLower_ascii
           Examples.symbolFields
           ltac:(intros k opts symbol H1 H2;
                 unfold Examples.symbolFields in H1;
                 apply lookup_singleton_Some in H1 as [_ <-];
                 apply lookup_singleton_Some in H2 as [_ <-];
                 reflexivity)
           (VStruct [("Keys", true, VSeq [VString "key_1"; VString "key_2"])])
           "" eq_refl).
Defined.

(** * Masks of the length of the value *)

Lemma wrap_sub_wrap (x y : Z) : wrap (x - y) = wrap (wrap x - y).
Proof.
  unfold wrap.
  replace (x - y - int_min) with ((x - int_min) - y) by lia.
  replace ((x - int_min) mod 2 ^ 64 + int_min - y - int_min)
    with ((x - int_min) mod 2 ^ 64 - y) by lia.
  by rewrite Zminus_mod_idemp_l.
Qed.

Lemma length_substring (n m : nat) (s : string) :
  (n + m ≤ String.length s)%nat → String.length (String.substring n m s) = m.
Proof.
  intros H. rewrite substring_keep_drop, length_keep_front; [done |].
  rewrite length_drop_front. lia.
Qed.

Lemma slice_Ok (s : string) (lo hi : Z) (a : string) :
  slice s lo hi = Ok a →
  0 <= lo <= hi ∧ hi <= len s ∧ Z.of_nat (String.length a) = hi - lo.
Proof.
  unfold slice.
  destruct (Z.leb_spec 0 lo); [|done].
  destruct (Z.leb_spec lo hi); [|done].
  destruct (Z.leb_spec hi (len s)); [|done].
  cbn [andb]. intros [= <-]. repeat split; try done.
  rewrite length_substring; unfold len in *; lia.
Qed.

Lemma Repeat_byte_Ok (symbol : string) (count : Z) (r : string) :
  String.length symbol = 1%nat → Repeat symbol count = Ok r →
  0 <= count ∧ Z.of_nat (String.length r) = count.
Proof.
  intros Hs. unfold Repeat.
  destruct (Z.ltb_spec count 0); [done |].
  destruct (int_max <? len symbol * count); [done |].
  intros [= <-]. rewrite length_repeat_byte by done. lia.
Qed.

Section VaryingLength.
Import CloneMutate.
Variable ToLower : string → string.
Variable fieldsToScrub : gmap string (option FieldScrubOptioner).

Lemma applyPartBackMask_length (v symbol : string) (front : Z)
    (mask : string) :
  String.length symbol = 1%nat → len v <= int_max →
  applyPartBackMask v symbol front = Ok mask →
  String.length mask = String.length v.
Proof.
  intros Hs Hv. unfold applyPartBackMask.
  destruct (slice v 0 front) as [a|] eqn:Ha; [|done]. cbn [bind].
  destruct (Repeat symbol _) as [r|] eqn:Hr; [|done]. cbn [bind].
  intros [= <-].
  apply slice_Ok in Ha as (Hf & Hf' & Ha).
  apply (Repeat_byte_Ok _ _ _ Hs) in Hr as [_ Hr].
  unfold int_sub in Hr.
  rewrite wrap_id in Hr by (unfold is_int, int_min, int_max in *; lia).
  rewrite length_app_string. unfold len in *. lia.
Qed.

Lemma applyPartMiddleMask_length (v symbol : string) (front back : Z)
    (mask : string) :
  String.length symbol = 1%nat → len v <= int_max →
  applyPartMiddleMask v symbol front back = Ok mask →
  String.length mask = String.length v.
Proof.
  intros Hs Hv. unfold applyPartMiddleMask.
  destruct (slice v 0 front) as [a|] eqn:Ha; [|done]. cbn [bind].
  destruct (slice v _ (len v)) as [b|] eqn:Hb; [|done]. cbn [bind].
  destruct (Repeat symbol _) as [r|] eqn:Hr; [|done]. cbn [bind].
  intros [= <-].
  apply slice_Ok in Ha as (Hf & Hf' & Ha).
  apply slice_Ok in Hb as (Hlo & _ & Hb).
  apply (Repeat_byte_Ok _ _ _ Hs) in Hr as [_ Hr].
  unfold int_sub in *.
  rewrite (wrap_id (len v - front)) in Hr
    by (unfold is_int, int_min, int_max in *; lia).
  replace (len v - front - back) with (len v - back - front) in Hr by lia.
  rewrite wrap_sub_wrap in Hr.
  rewrite (wrap_id (wrap (len v - back) - front)) in Hr
    by (unfold is_int, int_min, int_max in *; lia).
  rewrite !length_app_string. unfold len in *. lia.
Qed.

Lemma doMasking_vary_length (s : string) (canSet : bool)
    (fieldName : string) (checkCanSet : bool) (mask : string) :
  len s <= int_max →
  doMasking true ToLower (VString s) canSet fieldName fieldsToScrub
    checkCanSet = Ok (mask, true) →
  String.length mask = String.length s.
Proof.
  intros Hv. unfold doMasking.
  destruct (fieldsToScrub !! ToLower fieldName) as [opts|]; [|done].
  destruct (checkCanSet && negb canSet); [done |].
  destruct (len s =? 0); [done |]. cbn [negb].
  rewrite resolved_symbol.
  pose proof (symbol_of_length opts) as Hs.
  set (symbol := Spec.symbol_of opts) in *. clearbody symbol.
  assert (Hfull : ∀ m,
    (mask0 <- applyFullMask symbol (maskLen true (len s));;
     Ok (mask0, true)) = Ok (m, true) →
    String.length m = String.length s).
  { intros m. unfold applyFullMask, maskLen.
    destruct (Repeat symbol (len s)) as [r|] eqn:Hr; [|done].
    cbn [bind]. intros [= <-].
    apply (Repeat_byte_Ok _ _ _ Hs) in Hr as [_ Hr]. unfold len in Hr. lia. }
  destruct opts as [o|]; [|apply Hfull].
  destruct (PartMaskEnabled o); [|apply Hfull].
  destruct (len s <? _); [apply Hfull |].
  destruct (len s >? _); [apply Hfull |].
  destruct (len s <? _).
  { destruct (applyPartBackMask _ _ _) as [m|] eqn:Hm; [|done].
    cbn [bind]. intros [= <-]. by eapply applyPartBackMask_length. }
  destruct (len s <=? _); [|apply Hfull].
  destruct (applyPartMiddleMask _ _ _ _) as [m|] eqn:Hm; [|done].
  cbn [bind]. intros [= <-]. by eapply applyPartMiddleMask_length.
Qed.

(** X14: with [MaskLenVary] on, a run of the walker that returns leaves
    every string of the value with the length it had: full masks and
    partial masks alike have the length of what they mask. *)
Theorem varying_masks_keep_lengths (v r : value string)
    (fieldName : string) :
  Shape.representable v = true →
  scrubInternal_at true ToLower fieldsToScrub v fieldName = Ok r →
  vmap String.length r = vmap String.length v.
Proof.
  intros Hrep Hr.
  apply (frame_walk true ToLower fieldsToScrub String.length
           ltac:(intros; by eapply doMasking_vary_length) v fieldName r);
    done.
Qed.

End VaryingLength.

Lemma varying_masks_keep_lengths_witness :
  vmap String.length Examples.mapDataScrubbed
  = vmap String.length Examples.mapData.
Proof.
  exact (varying_masks_keep_lengths ToLower_ascii Examples.mapFields
           Examples.mapData Examples.mapDataScrubbed "MapData"
           ltac:(by_computation) ltac:(by_computation)).
Defined.

(** * What the walker of the current generation does not enter *)
Section NotEntered.
Import CloneMutate.
Variable MaskLenVary : bool.
Variable ToLower : string → string.
Variable fieldsToScrub : gmap string (option FieldScrubOptioner).

Local Abbreviation walk := (scrubInternal_at MaskLenVary ToLower fieldsToScrub).

(** X18: the walker follows one pointer and no interface. A field that is
    an interface, a pointer to a pointer, a nil pointer or of a kind that
    is not a string is returned as it is, whatever it holds and whatever
    its name: a string held by an [interface{}] field, or reached through
    two pointers, is not scrubbed, even when the field is named in the
    fields to scrub. *)
Theorem interfaces_and_second_pointers_are_not_entered (x : value string)
    (fieldName : string) :
  match x with
  | VIface _ | VPtr None | VPtr (Some (VPtr _)) | VOther _ => True
  | _ => False
  end →
  walk x fieldName = Ok x ∧
  walk (VStruct [(fieldName, true, x)]) "" = Ok (VStruct [(fieldName, true, x)]).
Proof.
  intros Hx.
  assert (Hwalk : ∀ name, walk x name = Ok x).
  { intros name.
    destruct x as [| |[[| |q| | | |]|]| | | |]; try done;
      cbn [scrubInternal_at scrubInternal_kind];
      case_decide; try done;
      by rewrite doMasking_not_string. }
  split; [apply Hwalk |].
  cbn [scrubInternal_at scrubInternal_kind]. by rewrite Hwalk.
Qed.

(** X19: a string is scrubbed under the name of the struct field it is
    reached from. A value that holds no struct and no map, such as a string
    or a slice of strings passed to [Scrub] by its address, comes back from
    [scrubInternal] as it went in, whatever the fields to scrub are. *)
Theorem values_outside_structs_are_not_scrubbed (v : value string) :
  Shape.unnamed v = true →
  scrubInternal MaskLenVary ToLower fieldsToScrub (Some (VPtr (Some v))) ""
  = Ok (Some (VPtr (Some v))).
Proof.
  intros Hv.
  assert (Hwalk : walk v "" = Ok v); [|unfold scrubInternal; by rewrite Hwalk].
  induction v as [s|raw|p IH|d IH|fields IH|elems IH|entries IH]
    using value_ind'; try done.
  - destruct p as [x|]; [|done].
    cbn [scrubInternal_at]. cbn [Shape.unnamed] in Hv.
    assert (scrubInternal_kind MaskLenVary ToLower fieldsToScrub walk x ""
            = Ok x) as ->; [|done].
    destruct x as [| |[q|]| | | |]; try done. by apply IH.
  - cbn [scrubInternal_at]. rewrite walk_seq.
    rewrite mapM_id; [done |].
    cbn [Shape.unnamed] in Hv. rewrite forallb_forall in Hv.
    apply Forall_forall. intros e He.
    rewrite Forall_forall in IH. apply (IH e He).
    apply Hv. by apply list_elem_of_In.
Qed.

(** X20: only exported fields of a struct are scrubbed. An unexported
    field is passed over: it stands in the result, at its place, as it
    stood in the value, whatever its name and whatever it holds. *)
Theorem unexported_fields_are_passed_over
    (fields : list (string * bool * value string)) (fieldName : string)
    (r : value string) :
  walk (VStruct fields) fieldName = Ok r →
  ∃ fields',
    r = VStruct fields' ∧
    ∀ i name x, fields !! i = Some (name, false, x) →
                fields' !! i = Some (name, false, x).
Proof.
  cbn [scrubInternal_at]. rewrite walk_struct.
  destruct (mapM _ fields) as [fields'|] eqn:HM; [|done].
  intros [= <-]. exists fields'. split; [done |].
  intros i name x Hi. apply mapM_Ok in HM.
  destruct (Forall2_lookup_l _ _ _ _ _ HM Hi) as (f' & Hi' & Hf).
  cbn [Shape.scrubInternal_field bind] in Hf. by injection Hf as <-.
Qed.

End NotEntered.

Lemma interfaces_and_second_pointers_are_not_entered_witness :
  CloneMutate.scrubInternal_at false ToLower_ascii CloneMutate.defaultToScrub
    (VStruct [("Password", true, VIface (Some (VString "nutanix/4u")))]) ""
  = Ok (VStruct [("Password", true, VIface (Some (VString "nutanix/4u")))]).
Proof.
  exact (proj2 (interfaces_and_second_pointers_are_not_entered false
                  ToLower_ascii CloneMutate.defaultToScrub
                  (VIface (Some (VString "nutanix/4u"))) "Password" I)).
Defined.

Lemma values_outside_structs_are_not_scrubbed_witness :
  CloneMutate.scrubInternal true ToLower_ascii Examples.keysFields
    (Some (VPtr (Some (VSeq [VString "key_1"; VString "key_2"])))) ""
  = Ok (Some (VPtr (Some (VSeq [VString "key_1"; VString "key_2"])))).
Proof.
  exact (values_outside_structs_are_not_scrubbed true ToLower_ascii
           Examples.keysFields (VSeq [VString "key_1"; VString "key_2"])
           eq_refl).
Defined.

Lemma unexported_fields_are_passed_over_witness :
  ∃ fields',
    VStruct [ ("password", false, VString "nutanix/4u");
              ("Password", true, VString "********") ]
    = VStruct fields' ∧
    ∀ i name x,
      [ ("password", false, VString "nutanix/4u");
        ("Password", true, VString "nutanix/4u") ] !! i
      = Some (name, false, x) →
      fields' !! i = Some (name, false, x).
Proof.
  exact (unexported_fields_are_passed_over false ToLower_ascii
           CloneMutate.defaultToScrub
           [ ("password", false, VString "nutanix/4u");
             ("Password", true, VString "nutanix/4u") ] ""
           (VStruct [ ("password", false, VString "nutanix/4u");
                      ("Password", true, VString "********") ])
           ltac:(by_computation)).
Defined.

(** * Structs of strings and of slices of strings *)
Section ByName.
Import CloneMutate.
Variable MaskLenVary : bool.
Variable ToLower : string → string.
Variable fieldsToScrub : gmap string (option FieldScrubOptioner).

Local Abbreviation walk := (scrubInternal_at MaskLenVary ToLower fieldsToScrub).

(** What becomes of a string reached under a field name. *)
Lemma walk_string (fieldName s : string) :
  fieldName ≠ "" →
  (∀ opts, fieldsToScrub !! ToLower fieldName = Some opts → s ≠ "" →
           len s <= int_max ∧ Spec.in_bounds opts s) →
  walk (VString s) fieldName
  = Ok (VString
          match fieldsToScrub !! ToLower fieldName with
          | Some opts =>
              if decide (s = "") then s
              else Spec.mask_of MaskLenVary (Spec.symbol_of opts) opts s
          | None => s
          end).
Proof.
  intros Hname Hs. cbn [scrubInternal_at scrubInternal_kind].
  rewrite decide_False by done.
  destruct (fieldsToScrub !! ToLower fieldName) as [opts|] eqn:Hl.
  - case_decide as Hempty.
    + subst s. unfold doMasking. by rewrite Hl.
    + destruct (Hs opts eq_refl Hempty) as [Hlen Hb].
      by rewrite (doMasking_matched MaskLenVary ToLower fieldsToScrub
                    fieldName opts s true true).
  - unfold doMasking. by rewrite Hl.
Qed.

(** X21: in a struct of exported string fields every field is scrubbed by
    its own name: a field whose name, in lower case, is among the fields to
    scrub and whose value is not empty gets its mask, and every other field
    keeps its value. *)
Theorem string_fields_are_scrubbed_by_name (fields : list (string * string))
    (fieldName : string) :
  Forall (λ '(name, s),
            name ≠ "" ∧
            ∀ opts, fieldsToScrub !! ToLower name = Some opts → s ≠ "" →
                    len s <= int_max ∧ Spec.in_bounds opts s) fields →
  walk (VStruct ((λ '(name, s), (name, true, VString s)) <$> fields))
    fieldName
  = Ok (VStruct
          ((λ '(name, s),
              (name, true,
               VString
                 match fieldsToScrub !! ToLower name with
                 | Some opts =>
                     if decide (s = "") then s
                     else Spec.mask_of MaskLenVary (Spec.symbol_of opts)
                            opts s
                 | None => s
                 end)) <$> fields)).
Proof.
  intros Hall. cbn [scrubInternal_at]. rewrite walk_struct.
  match goal with
  | |- context [bind (mapM ?f ?l) _] =>
      match goal with
      | |- _ = Ok (VStruct ?l') => assert (mapM f l = Ok l') as ->
      end
  end; [|done].
  induction Hall as [|[name s] fs [Hname Hs] _ IH]; [done |].
  cbn [fmap list_fmap mapM Shape.scrubInternal_field].
  rewrite walk_string by done. cbn [bind]. by rewrite IH.
Qed.

(** X22: the strings of a slice or array field are scrubbed under the name
    of the field: every element that is not empty gets the mask that the
    options of the field give it, and the empty elements stay empty. *)
Theorem slice_elements_are_scrubbed_by_field_name (fieldName : string)
    (opts : option FieldScrubOptioner) (values : list string) :
  fieldName ≠ "" →
  fieldsToScrub !! ToLower fieldName = Some opts →
  Forall (λ s, s ≠ "" → len s <= int_max ∧ Spec.in_bounds opts s) values →
  walk (VStruct [(fieldName, true, VSeq (VString <$> values))]) ""
  = Ok (VStruct
          [(fieldName, true,
            VSeq ((λ s, VString
                          (if decide (s = "") then s
                           else Spec.mask_of MaskLenVary (Spec.symbol_of opts)
                                  opts s)) <$> values))]).
Proof.
  intros Hname Hl Hall.
  cbn [scrubInternal_at]. rewrite walk_struct.
  cbn [mapM Shape.scrubInternal_field bind scrubInternal_at].
  rewrite walk_seq.
  match goal with
  | |- context [bind (mapM ?f ?l) _] =>
      assert (mapM f l
              = Ok ((λ s, VString
                            (if decide (s = "") then s
                             else Spec.mask_of MaskLenVary
                                    (Spec.symbol_of opts) opts s))
                    <$> values)) as ->
  end; [|done].
  induction Hall as [|s ss Hs _ IH]; [done |].
  cbn [fmap list_fmap mapM]. rewrite walk_string; [|done |].
  - rewrite Hl. cbn [bind]. by rewrite IH.
  - intros opts' Hl'. rewrite Hl in Hl'. injection Hl' as <-. exact Hs.
Qed.

End ByName.

Lemma string_fields_are_scrubbed_by_name_witness :
  CloneMutate.scrubInternal_at false ToLower_ascii CloneMutate.defaultToScrub
    Examples.userValue ""
  = Ok (VStruct [ ("Username", true, VString "Shyam Rathi");
                  ("Password", true, VString "********") ]).
Proof.
  exact (string_fields_are_scrubbed_by_name false ToLower_ascii
           CloneMutate.defaultToScrub
           [("Username", "Shyam Rathi"); ("Password", "nutanix/4u")] ""
           ltac:(repeat (apply List.Forall_cons;
                         [split; [by_computation |];
                          intros opts Hl _; vm_compute in Hl;
                          first [ discriminate Hl
                                | injection Hl as <-; split; by_computation ]
                         |]);
                 apply List.Forall_nil)).
Defined.

Lemma slice_elements_are_scrubbed_by_field_name_witness :
  CloneMutate.scrubInternal_at true ToLower_ascii Examples.keysFields
    (VStruct [("Keys", true, VSeq (VString <$> ["key_1"; ""; "key_3"]))]) ""
  = Ok (VStruct [("Keys", true,
                  VSeq [VString "....."; VString ""; VString "....."])]).
Proof.
  exact (slice_elements_are_scrubbed_by_field_name true ToLower_ascii
           Examples.keysFields "Keys" (Some Examples.dotOpts)
           ["key_1"; ""; "key_3"] ltac:(by_computation) ltac:(by_computation)
           ltac:(repeat (apply List.Forall_cons;
                         [intros _; split; by_computation |]);
                 apply List.Forall_nil)).
Defined.

(** The options of the tests, [newFieldScrubOpts(symbol,
    NewPartScrubConf(true, 10, 19, 6, 16, 4))], through their methods. *)
Lemma partOpts_of_the_tests (symbol : string) :
  ScrubTest.optioner
    (ScrubTest.newFieldScrubOpts symbol
       (Some (CloneMutate.NewPartScrubConf true 10 19 6 16 4)))
  = Examples.partOpts symbol.
Proof. reflexivity. Qed.

(** X23: in a map the walker scrubs the strings and enters the sequences
    that the entries hold through an interface, and nothing else. Every
    other entry stands in the result, at its place, as it stood in the map,
    whatever its key: a map held directly by an entry, such as a JSON
    object inside a JSON object, is not entered, and the strings under its
    keys are not scrubbed. *)
Theorem maps_under_map_keys_are_not_entered (MaskLenVary : bool)
    (ToLower : string → string)
    (fieldsToScrub : gmap string (option CloneMutate.FieldScrubOptioner))
    (entries : list (string * value string)) (fieldName : string)
    (r : value string) :
  NoDup (entries.*1) →
  CloneMutate.scrubInternal_at MaskLenVary ToLower fieldsToScrub
    (VMap entries) fieldName = Ok r →
  ∃ entries',
    r = VMap entries' ∧
    ∀ i k x,
      entries !! i = Some (k, x) →
      match x with
      | VIface (Some (VString _)) | VIface (Some (VSeq _)) => False
      | _ => True
      end →
      entries' !! i = Some (k, x).
Proof.
  intros Hnd.
  cbn [CloneMutate.scrubInternal_at CloneMutate.scrubInternal_kind].
  rewrite walk_map by done.
  destruct (mapM _ entries) as [entries'|] eqn:HM; [|done].
  intros [= <-]. exists entries'. split; [done |].
  intros i k x Hi Hx. apply mapM_Ok in HM.
  destruct (Forall2_lookup_l _ _ _ _ _ HM Hi) as (kv & Hi' & Hkv).
  rewrite Hi'. f_equal.
  cbn [Shape.scrubInternalMap_entry] in Hkv.
  destruct x as [| | |[[]|]| | |]; try done; by injection Hkv as <-.
Qed.

Lemma maps_under_map_keys_are_not_entered_witness :
  ∃ entries',
    VMap [ ("password", VIface (Some (VString "********")));
           ("nested", VIface (Some (VMap [("password",
                                           VIface (Some (VString "x")))]))) ]
    = VMap entries' ∧
    ∀ i k x,
      [ ("password", VIface (Some (VString "nutanix/4u")));
        ("nested", VIface (Some (VMap [("password",
                                        VIface (Some (VString "x")))]))) ]
        !! i = Some (k, x) →
      match x with
      | VIface (Some (VString _)) | VIface (Some (VSeq _)) => False
      | _ => True
      end →
      entries' !! i = Some (k, x).
Proof.
  exact (maps_under_map_keys_are_not_entered false ToLower_ascii
           CloneMutate.defaultToScrub
           [ ("password", VIface (Some (VString "nutanix/4u")));
             ("nested", VIface (Some (VMap [("password",
                                             VIface (Some (VString "x")))]))) ]
           "MapData"
           (VMap [ ("password", VIface (Some (VString "********")));
                   ("nested", VIface (Some (VMap [("password",
                                           VIface (Some (VString "x")))]))) ])
           ltac:(apply (bool_decide_unpack _); by_computation)
           ltac:(by_computation)).
Defined.
